(** * mailcastpy: the template service

    A shallow embedding of [src/services/template_service.py]:
    variable substitution ([replace_variables]), parameter extraction
    ([validate_template_params], [get_template_params],
    [validate_template]) and the rich-text-to-HTML renderer
    ([get_html_content]); and of the code around it: the parameter
    service, the recipients service (without the reading and writing of
    files) and the parameter check of the preview window.

    Python [str] values are modelled as [string]; a character is one
    8-bit code.  A [dict] whose iteration order is observable
    ([variables.items()]) is an association list in insertion order; the
    tag dictionary, which is only read through [.get], is a [gmap]; the
    sets of parameters are [gset]s.  The set of tags of an offset is
    kept as the list of its insertions: it is compared as a set, and the
    order in which [for tag in current_tags] visits it is a parameter of
    the renderer.  The [while] loops that step by one are structural
    recursions; the loop over the runs of a paragraph, which jumps, has
    fuel, and [len(paragraph)] is shown to be enough. *)

From Stdlib Require Import Ascii String List Arith Lia.
From stdpp Require Import gmap strings list pretty.


(** ** Python string primitives *)

Module PyStr.

Definition str1 (c : ascii) : string := String c "".

(** The characters the code names. *)
Definition lbrace : ascii := "{"%char.
Definition rbrace : ascii := "}"%char.
Definition newline : ascii := "010"%char.
Definition space : ascii := " "%char.
Definition colon : ascii := ":"%char.
Definition dquote : ascii := "034"%char.
Definition squote : ascii := "'"%char.

(** [s[n:]] *)
Fixpoint drop (n : nat) (s : string) : string :=
  match n, s with
  | S n', String _ s' => drop n' s'
  | _, _ => s
  end.

(** [s[a:b]] for [a <= b] *)
Definition slice (a b : nat) (s : string) : string :=
  String.substring a (b - a) s.

(** [s.startswith(p)] *)
Definition startswith (s p : string) : bool := String.prefix p s.

(** [s.replace(old, new)]: the occurrences of [old] are found from the
    left and do not overlap.  [skip] counts the characters of a match
    that are still to be passed over.  For an empty [old] Python puts
    [new] before every character and at the end. *)
Fixpoint replace_go (old new : string) (skip : nat) (s : string) : string :=
  match s with
  | "" => ""
  | String c s' =>
      match skip with
      | S n => replace_go old new n s'
      | O =>
          if String.prefix old s
          then new +:+ replace_go old new (String.length old - 1) s'
          else String c (replace_go old new 0 s')
      end
  end.

Fixpoint intersperse (new : string) (s : string) : string :=
  match s with
  | "" => new
  | String c s' => new +:+ String c (intersperse new s')
  end.

Definition replace (old new s : string) : string :=
  match old with
  | "" => intersperse new s
  | _ => replace_go old new 0 s
  end.

(** [s.split(sep)] for a one-character separator. *)
Fixpoint split (sep : ascii) (s : string) : list string :=
  match s with
  | "" => [""]
  | String c s' =>
      if Ascii.eqb c sep then "" :: split sep s'
      else match split sep s' with
           | h :: t => String c h :: t
           | [] => [str1 c]
           end
  end.

(** [s.split(sep, 1)] *)
Fixpoint split_once (sep : ascii) (s : string) : list string :=
  match s with
  | "" => [""]
  | String c s' =>
      if Ascii.eqb c sep then [""; s']
      else match split_once sep s' with
           | h :: t => String c h :: t
           | [] => [str1 c]
           end
  end.

(** [sep.join(l)] *)
Definition join (sep : string) (l : list string) : string :=
  String.concat sep l.

(** [str.isspace] on the codes below 256. *)
Definition isspace (c : ascii) : bool :=
  let n := nat_of_ascii c in
  ((9 <=? n) && (n <=? 13)) || ((28 <=? n) && (n <=? 32))
  || (n =? 133) || (n =? 160).

Fixpoint lstrip (s : string) : string :=
  match s with
  | "" => ""
  | String c s' => if isspace c then lstrip s' else s
  end.

Fixpoint rstrip (s : string) : string :=
  match s with
  | "" => ""
  | String c s' =>
      match rstrip s' with
      | "" => if isspace c then "" else str1 c
      | r => String c r
      end
  end.

(** [s.strip()] *)
Definition strip (s : string) : string := rstrip (lstrip s).

(** [s.count(sub)] for a non-empty [sub]: occurrences that do not
    overlap, from the left. *)
Fixpoint count_go (sub : string) (skip : nat) (s : string) : nat :=
  match s with
  | "" => 0
  | String c s' =>
      match skip with
      | S n => count_go sub n s'
      | O =>
          if String.prefix sub s
          then S (count_go sub (String.length sub - 1) s')
          else count_go sub 0 s'
      end
  end.

Definition count (sub s : string) : nat := count_go sub 0 s.

(** [html.escape(s)] with its default [quote=True], as the standard
    library writes it: five successive replacements, the ampersand
    first. *)
Definition html_escape (s : string) : string :=
  let s := replace "&" "&amp;" s in
  let s := replace "<" "&lt;" s in
  let s := replace ">" "&gt;" s in
  let s := replace (str1 dquote) "&quot;" s in
  replace (str1 squote) "&#x27;" s.

(** [str.lower] on the codes below 256: the letters [A] to [Z] and
    the capital letters of the Latin-1 range move up by 32. *)
Definition lower_char (c : ascii) : ascii :=
  let n := nat_of_ascii c in
  if ((65 <=? n) && (n <=? 90)) || ((192 <=? n) && (n <=? 214))
     || ((216 <=? n) && (n <=? 222))
  then ascii_of_nat (n + 32) else c.

Fixpoint lower (s : string) : string :=
  match s with
  | "" => ""
  | String c s' => String (lower_char c) (lower s')
  end.

(** [str.isalnum] on the codes below 256: a string that is not empty
    and holds letters and digits only. *)
Definition isalnum_char (c : ascii) : bool :=
  let n := nat_of_ascii c in
  ((48 <=? n) && (n <=? 57)) || ((65 <=? n) && (n <=? 90))
  || ((97 <=? n) && (n <=? 122)) || (n =? 170)
  || ((178 <=? n) && (n <=? 179)) || (n =? 181)
  || ((185 <=? n) && (n <=? 186)) || ((188 <=? n) && (n <=? 190))
  || ((192 <=? n) && (n <=? 214)) || ((216 <=? n) && (n <=? 246))
  || ((248 <=? n) && (n <=? 255)).

Fixpoint all_alnum (s : string) : bool :=
  match s with
  | "" => true
  | String c s' => isalnum_char c && all_alnum s'
  end.

Definition isalnum (s : string) : bool :=
  match s with
  | "" => false
  | String _ _ => all_alnum s
  end.

End PyStr.

(** ** Variable substitution *)

(** [replace_variables(template, variables)]: the loop over
    [variables.items()] threads [result] through one [str.replace] per
    key, in insertion order. *)
Definition placeholder (key : string) : string :=
  PyStr.str1 PyStr.lbrace +:+ key +:+ PyStr.str1 PyStr.rbrace.

Fixpoint replace_variables (template : string)
    (variables : list (string * string)) : string :=
  match variables with
  | [] => template
  | (key, value) :: rest =>
      replace_variables (PyStr.replace (placeholder key) value template) rest
  end.

(** ** Parameter extraction *)

(** [re.findall(r'\{([^}]+)\}', text)].  At a position holding an
    opening brace the class [[^}]+] greedily takes every character up to
    the next closing brace or the end of the text; the match succeeds
    when that run is not empty and a closing brace follows it (giving the
    run up only exposes characters that are not closing braces, so
    backtracking finds nothing more).  The scan resumes after a match,
    and one character further after a failure. *)
Fixpoint take_inner (s : string) : string * string :=
  match s with
  | "" => ("", "")
  | String c s' =>
      if Ascii.eqb c PyStr.rbrace then ("", s)
      else let '(run, rest) := take_inner s' in (String c run, rest)
  end.

Definition match_at (s : string) : option string :=
  match s with
  | String c s' =>
      if Ascii.eqb c PyStr.lbrace then
        match take_inner s' with
        | (String a run, String _ _) => Some (String a run)
        | _ => None
        end
      else None
  | "" => None
  end.

Fixpoint findall_go (skip : nat) (s : string) : list string :=
  match s with
  | "" => []
  | String c s' =>
      match skip with
      | S n => findall_go n s'
      | O =>
          match match_at s with
          | Some inner => inner :: findall_go (String.length inner + 1) s'
          | None => findall_go 0 s'
          end
      end
  end.

Definition findall (text : string) : list string := findall_go 0 text.

Definition validate_template_params (text : string) : gset string :=
  list_to_set (findall text).

Definition get_template_params (subject content : string) : gset string :=
  let subject_params := validate_template_params subject in
  let content_params := validate_template_params content in
  subject_params ∪ content_params.

Definition validate_template (subject content : string)
    (available_params : gset string) : bool * gset string :=
  let template_params := get_template_params subject content in
  let undefined_params := template_params ∖ available_params in
  (size undefined_params =? 0, undefined_params).

(** The wording of the specification for parameter extraction, read
    literally: [inner] is the inner text of some substring of [text]
    made of an opening brace, one or more characters other than the
    closing brace, and a closing brace. *)
Fixpoint has_char (c : ascii) (s : string) : bool :=
  match s with
  | "" => false
  | String a s' => Ascii.eqb a c || has_char c s'
  end.

Definition braced_substring (text inner : string) : Prop :=
  inner ≠ "" ∧ has_char PyStr.rbrace inner = false ∧
  ∃ pre post, text = pre +:+ placeholder inner +:+ post.

(** ** The template and the renderer *)

Abbreviation tag_map := (gmap string (list string)).

Record TemplateService := {
  _subject : string;
  _content : string;
  _is_html : bool;
  _tags : tag_map;
  _font_family : string;
  _font_size : string
}.

(** [__init__] and [clear_template] *)
Definition clear_template : TemplateService :=
  {| _subject := ""; _content := ""; _is_html := true; _tags := ∅;
     _font_family := "Times New Roman"; _font_size := "12" |}.

Definition update_template (subject content : string) (is_html : bool)
    (tags : tag_map) (font_family font_size : string) : TemplateService :=
  {| _subject := subject; _content := content; _is_html := is_html;
     _tags := tags; _font_family := font_family; _font_size := font_size |}.

(** [{tag for tag in self._tags.get(str(i), []) if tag != 'sel'}]: the
    tags in the order in which the comprehension adds them to the set. *)
Definition tags_at (tags : tag_map) (i : nat) : list string :=
  filter (λ tag, tag ≠ "sel") (default [] (tags !! pretty i)).

(** Equality of the two sets ([next_tags != current_tags] is its
    negation). *)
Definition same_set (a b : list string) : bool :=
  bool_decide (list_to_set a =@{gset string} list_to_set b).

(** The inner [while]: [rest] is [paragraph[end_pos:]]. *)
Fixpoint run_end (tags : tag_map) (current_pos : nat)
    (current_tags : list string) (rest : string) (end_pos : nat) : nat :=
  match rest with
  | "" => end_pos
  | String _ rest' =>
      let next_tags := tags_at tags (current_pos + end_pos) in
      if same_set next_tags current_tags
      then run_end tags current_pos current_tags rest' (S end_pos)
      else end_pos
  end.

(** [html.escape(segment).replace(' ', '&nbsp;')] *)
Definition escape_text (segment : string) : string :=
  PyStr.replace " " "&nbsp;" (PyStr.html_escape segment).

(** The body of [for tag in current_tags] *)
Definition font_style (tag : string) : list string :=
  if PyStr.startswith tag "font-family:" then
    match PyStr.split_once PyStr.colon tag with
    | [_; family] => ["font-family: '" +:+ PyStr.strip family +:+ "'"]
    | _ => []
    end
  else if PyStr.startswith tag "font-size:" then
    match PyStr.split_once PyStr.colon tag with
    | [_; size] => ["font-size: " +:+ PyStr.strip size +:+ "pt"]
    | _ => []
    end
  else [].

Section Renderer.

(** The order in which Python iterates over the set that was built by
    adding the elements of a list one after the other.  The language
    leaves it open; it lists every element of the set once. *)
Variable set_iter : list string → list string.

Definition build_styles (current_tags : list string) : list string :=
  (if bool_decide ("bold" ∈ current_tags) then ["font-weight: bold"] else [])
  ++ (if bool_decide ("italic" ∈ current_tags) then ["font-style: italic"] else [])
  ++ (if bool_decide ("underline" ∈ current_tags)
      then ["text-decoration: underline"] else [])
  ++ flat_map font_style (set_iter current_tags).

(** What one run appends to [html_lines]. *)
Definition render_run (current_tags : list string) (segment : string) : string :=
  let escaped_text := escape_text segment in
  match current_tags with
  | [] => escaped_text
  | _ :: _ =>
      let style_attr := PyStr.join "; " (build_styles current_tags) in
      "<span style=" +:+ PyStr.str1 PyStr.dquote +:+ style_attr
        +:+ PyStr.str1 PyStr.dquote +:+ ">" +:+ escaped_text +:+ "</span>"
  end.

(** The outer [while pos < len(paragraph)].  Every iteration moves
    [pos] forward by at least one, so [len(paragraph)] iterations are
    enough; [fuel] bounds them. *)
Fixpoint render_runs (fuel : nat) (tags : tag_map) (current_pos : nat)
    (paragraph : string) (pos : nat) : list string :=
  match fuel with
  | O => []
  | S fuel' =>
      if pos <? String.length paragraph then
        let current_tags := tags_at tags (current_pos + pos) in
        let end_pos :=
          run_end tags current_pos current_tags
            (PyStr.drop (S pos) paragraph) (S pos) in
        let segment := PyStr.slice pos end_pos paragraph in
        render_run current_tags segment
          :: render_runs fuel' tags current_pos paragraph end_pos
      else []
  end.

Record loop_state := {
  html_lines : list string;
  current_pos : nat;
  last_empty : bool
}.

Definition loop_init : loop_state :=
  {| html_lines := []; current_pos := 0; last_empty := false |}.

(** One iteration of [for paragraph in paragraphs]. *)
Definition paragraph_step (tags : tag_map) (st : loop_state)
    (paragraph : string) : loop_state :=
  match paragraph with
  | "" =>
      if last_empty st then
        {| html_lines := html_lines st;
           current_pos := current_pos st + 1;
           last_empty := true |}
      else
        {| html_lines := html_lines st ++ ["<p>&nbsp;</p>"];
           current_pos := current_pos st + 1;
           last_empty := true |}
  | String _ _ =>
      {| html_lines :=
           (html_lines st ++ ["<p>"])
           ++ render_runs (String.length paragraph) tags (current_pos st)
                paragraph 0
           ++ ["</p>"];
         current_pos := current_pos st + (String.length paragraph + 1);
         last_empty := false |}
  end.

Definition render_loop (tags : tag_map) (paragraphs : list string)
    (st : loop_state) : loop_state :=
  fold_left (paragraph_step tags) paragraphs st.

Definition render (content : string) (tags : tag_map) : string :=
  let paragraphs := PyStr.split PyStr.newline content in
  let st := render_loop tags paragraphs loop_init in
  PyStr.join (PyStr.str1 PyStr.newline) (html_lines st).

Definition get_html_content (self : TemplateService) : string :=
  render (_content self) (_tags self).

End Renderer.

(** Two iteration orders: the order of insertion, and its reverse. *)
Definition iter_insertion (l : list string) : list string := remove_dups l.
Definition iter_reversed (l : list string) : list string :=
  reverse (remove_dups l).

Definition tag_range (lo n : nat) (ts : list string) : tag_map :=
  list_to_map ((λ i, (pretty i, ts)) <$> seq lo n).

(** ** The parameter service ([services/parameter_service.py]) *)

Module ParameterService.

(** The second component of the result of [validate_param_identifier]
    and [add_param]: the empty string, or one of the three messages of
    the source. *)
Inductive message :=
  | no_error          (* "" *)
  | identifier_empty  (* "参数标识符不能为空" *)
  | identifier_exists (* "参数标识符已存在" *)
  | identifier_format (* "参数标识符只能包含字母、数字和下划线" *).

Definition validate_param_identifier (identifier : string)
    (existing_ids : gset string) : bool * message :=
  match identifier with
  | "" => (false, identifier_empty)
  | String _ _ =>
      if bool_decide (PyStr.lower identifier
                      ∈ (set_map PyStr.lower existing_ids : gset string))
      then (false, identifier_exists)
      else if negb (PyStr.isalnum (PyStr.replace "_" "" identifier))
      then (false, identifier_format)
      else (true, no_error)
  end.

(** The class attribute [_custom_params], a list of pairs (display
    name, identifier), is threaded through the methods that change it. *)
Definition add_param (display_name identifier : string)
    (_custom_params : list (string * string))
    : (bool * message) * list (string * string) :=
  let existing_ids : gset string := list_to_set (_custom_params.*2) in
  let '(is_valid, error_msg) :=
    validate_param_identifier identifier existing_ids in
  if negb is_valid then ((false, error_msg), _custom_params)
  else ((true, no_error), _custom_params ++ [(display_name, identifier)]).

(** The first entry whose identifier matches, ignoring case, is popped. *)
Fixpoint remove_param (identifier : string)
    (_custom_params : list (string * string))
    : bool * list (string * string) :=
  match _custom_params with
  | [] => (false, [])
  | (display_name, param_id) :: rest =>
      if String.eqb (PyStr.lower param_id) (PyStr.lower identifier)
      then (true, rest)
      else let '(found, rest') := remove_param identifier rest in
           (found, (display_name, param_id) :: rest')
  end.

Definition get_custom_param_identifiers
    (_custom_params : list (string * string)) : list string :=
  _custom_params.*2.

Definition clear_custom_params : list (string * string) := [].

Definition get_display_columns (custom_params : list string) : list string :=
  ["email"; "name"] ++ custom_params.

Definition validate_required_params (headers : gset string)
    : bool * gset string :=
  let required : gset string := {["name"; "email"]} in
  let headers_lower : gset string := set_map PyStr.lower headers in
  let missing := required ∖ headers_lower in
  (size missing =? 0, missing).

Definition merge_params (custom_params : list string) : gset string :=
  let default_params : gset string := {["name"; "email"]} in
  default_params ∪ list_to_set custom_params.

Definition validate_template_params (template_params available_params
    : gset string) : bool * gset string :=
  let template_params_lower : gset string :=
    set_map PyStr.lower template_params in
  let available_params_lower : gset string :=
    set_map PyStr.lower available_params in
  let undefined_params := template_params_lower ∖ available_params_lower in
  (size undefined_params =? 0, undefined_params).

(** [sync_params_with_data]: a row is a dictionary that is read by key;
    the new row gets every valid column, with the old value or the
    empty string, and keeps the status of the old row. *)
Definition sync_row (valid_columns : gset string)
    (row : gmap string string) : gmap string string :=
  let new_row :=
    set_fold (λ col (new_row : gmap string string),
                <[col := default "" (row !! col)]> new_row)
      ∅ valid_columns in
  match row !! "status" with
  | Some status => <["status" := status]> new_row
  | None => new_row
  end.

Definition sync_params_with_data (params : list string)
    (data : list (gmap string string)) : list (gmap string string) :=
  let valid_columns : gset string :=
    {["email"; "name"]} ∪ list_to_set params in
  sync_row valid_columns <$> data.

End ParameterService.

(** ** The recipients service ([services/recipients_service.py]) *)

Module RecipientsService.

(** [recipients_data] is threaded through the methods.  [None] stands
    for the exception that a missing key or an index out of range
    raises. *)
Fixpoint update_status (email status : string)
    (recipients_data : list (gmap string string))
    : option (bool * list (gmap string string)) :=
  match recipients_data with
  | [] => Some (false, [])
  | recipient :: rest =>
      match recipient !! "email" with
      | None => None
      | Some e =>
          if String.eqb e email
          then Some (true, <["status" := status]> recipient :: rest)
          else match update_status email status rest with
               | Some (found, rest') => Some (found, recipient :: rest')
               | None => None
               end
      end
  end.

(** [self.recipients_data[index]]: an index below zero counts from the
    end. *)
Definition get_recipient (index : Z)
    (recipients_data : list (gmap string string))
    : option (gmap string string) :=
  let len := Z.of_nat (length recipients_data) in
  if (0 <=? index)%Z then recipients_data !! Z.to_nat index
  else if (- len <=? index)%Z then recipients_data !! Z.to_nat (len + index)
  else None.

Definition update_recipient (index : Z) (data : gmap string string)
    (recipients_data : list (gmap string string))
    : list (gmap string string) :=
  if (0 <=? index)%Z && (index <? Z.of_nat (length recipients_data))%Z
  then <[Z.to_nat index := data]> recipients_data
  else recipients_data.

Definition validate_template_params (template_params : gset string)
    (recipients_data : list (gmap string string)) : bool * gset string :=
  match recipients_data with
  | [] => (true, ∅)
  | first :: _ =>
      let headers : gset string := dom first in
      ParameterService.validate_template_params template_params headers
  end.

End RecipientsService.

(** ** The check of the preview window
    ([gui/components/preview_window.py]) *)

Module PreviewWindow.

Section ValidateParams.

(** The order in which the set of the template parameters is iterated. *)
Variable params_iter : gset string → list string.

Definition _validate_params (subject content : string)
    (recipient : gmap string string) : list string :=
  let template_params := get_template_params subject content in
  filter (λ param, recipient !! param = None) (params_iter template_params).

End ValidateParams.

End PreviewWindow.

(** ** The check of the recipients panel on an import
    ([gui/components/recipients_panel.py]) *)

Module RecipientsPanel.

(** [sync_custom_params]: the set that the panel keeps as
    [self.template_params]. *)
Definition sync_custom_params (params : list string) : gset string :=
  ParameterService.merge_params params.

(** The check of [import_csv] on the imported rows: it is skipped when
    the set is empty, as it is before the first [sync_custom_params]. *)
Definition import_check (template_params : gset string)
    (recipients_data : list (gmap string string)) : bool * gset string :=
  if bool_decide (template_params = ∅) then (true, ∅)
  else RecipientsService.validate_template_params template_params
         recipients_data.

End RecipientsPanel.

(** ** Notions used to state the properties *)

(** [sub in s] *)
Fixpoint contains (sub s : string) : bool :=
  String.prefix sub s ||
  match s with
  | "" => false
  | String _ s' => contains sub s'
  end.

(** A name without brace characters. *)
Definition brace_free (s : string) : Prop :=
  has_char PyStr.lbrace s = false ∧ has_char PyStr.rbrace s = false.

(** [mid] is out of the reach of the pattern [old]: an occurrence of
    [old] that begins before an occurrence of [mid] ends before it, and
    none begins inside. *)
Definition out_of_reach (old mid : string) : Prop :=
  (∀ u w, String.prefix old (u +:+ mid +:+ w) = true →
          String.length old ≤ String.length u)
  ∧ (∀ m1 m2 w, mid = m1 +:+ m2 → m2 ≠ "" →
                String.prefix old (m2 +:+ w) = false).


(** [n] newline characters. *)
Fixpoint newlines (n : nat) : string :=
  match n with
  | O => ""
  | S n' => String PyStr.newline (newlines n')
  end.

Definition nl : string := PyStr.str1 PyStr.newline.

(** The tag map without its selection markers: the marker is dropped
    from every entry, and an entry that held nothing else is dropped
    with it.  Two maps that differ only in where ['sel'] appears have
    the same image. *)
Definition erase_sel (tags : tag_map) : tag_map :=
  omap (λ l, match filter (λ tag, tag ≠ "sel") l with
             | [] => None
             | t :: l' => Some (t :: l')
             end) tags.

(** The runs of a paragraph as pairs [(pos, end_pos)], computed as
    [render_runs] computes them. *)
Fixpoint paragraph_runs (fuel : nat) (tags : tag_map) (current_pos : nat)
    (paragraph : string) (pos : nat) : list (nat * nat) :=
  match fuel with
  | O => []
  | S fuel' =>
      if pos <? String.length paragraph then
        let current_tags := tags_at tags (current_pos + pos) in
        let end_pos :=
          run_end tags current_pos current_tags
            (PyStr.drop (S pos) paragraph) (S pos) in
        (pos, end_pos) :: paragraph_runs fuel' tags current_pos paragraph end_pos
      else []
  end.

(** A division of the offsets [pos .. len - 1] of a paragraph into
    maximal runs: inside a run every offset has the tag set of the
    first one, and the offset after a run, if there is one, has another
    tag set. *)
Inductive maximal_runs (tags : tag_map) (current_pos len : nat) :
    nat → list (nat * nat) → Prop :=
  | runs_done : maximal_runs tags current_pos len len []
  | runs_step pos end_pos rs :
      pos < end_pos ≤ len →
      (∀ i, pos ≤ i < end_pos →
         same_set (tags_at tags (current_pos + i))
                  (tags_at tags (current_pos + pos)) = true) →
      (end_pos < len →
         same_set (tags_at tags (current_pos + end_pos))
                  (tags_at tags (current_pos + pos)) = false) →
      maximal_runs tags current_pos len end_pos rs →
      maximal_runs tags current_pos len pos ((pos, end_pos) :: rs).

(** The line of a styled run. *)
Definition span (style_attr escaped_text : string) : string :=
  "<span style=" +:+ PyStr.str1 PyStr.dquote +:+ style_attr
    +:+ PyStr.str1 PyStr.dquote +:+ ">" +:+ escaped_text +:+ "</span>".

(** What the two steps of [escape_text] do to one character. *)
Definition esc_char (c : ascii) : string :=
  if Ascii.eqb c "&" then "&amp;"
  else if Ascii.eqb c "<" then "&lt;"
  else if Ascii.eqb c ">" then "&gt;"
  else if Ascii.eqb c PyStr.dquote then "&quot;"
  else if Ascii.eqb c PyStr.squote then "&#x27;"
  else if Ascii.eqb c PyStr.space then "&nbsp;"
  else PyStr.str1 c.

Fixpoint escape_chars (s : string) : string :=
  match s with
  | "" => ""
  | String c s' => esc_char c +:+ escape_chars s'
  end.

(** Replacement of every occurrence of one character. *)
Fixpoint subst_char (a : ascii) (new s : string) : string :=
  match s with
  | "" => ""
  | String c s' =>
      (if Ascii.eqb c a then new else PyStr.str1 c) +:+ subst_char a new s'
  end.

(** A text without raw markup characters: no angle bracket, and every
    ampersand opens one of the entities that the renderer writes. *)
Definition entities : list string :=
  ["amp;"; "lt;"; "gt;"; "quot;"; "#x27;"; "nbsp;"].

Fixpoint well_escaped (s : string) : bool :=
  match s with
  | "" => true
  | String c s' =>
      if Ascii.eqb c "<" || Ascii.eqb c ">" then false
      else if Ascii.eqb c "&"
      then existsb (λ e, String.prefix e s') entities && well_escaped s'
      else well_escaped s'
  end.

(** The lines of the output: the three fixed ones, and the lines that
    carry text.  A line that carries text holds, character by character,
    the entities of a slice of a paragraph, bare or inside a span whose
    style is the one that the tags of some offset declare: nothing of
    the content is part of the style. *)
Definition text_line (set_iter : list string → list string) (tags : tag_map)
    (paragraphs : list string) (line : string) : Prop :=
  ∃ paragraph pos end_pos offset,
    paragraph ∈ paragraphs ∧
    let escaped_text := escape_chars (PyStr.slice pos end_pos paragraph) in
    let style_attr :=
      PyStr.join "; " (build_styles set_iter (tags_at tags offset)) in
    line = escaped_text ∨ line = span style_attr escaped_text.

Definition line_ok (set_iter : list string → list string) (tags : tag_map)
    (paragraphs : list string) (line : string) : Prop :=
  line = "<p>" ∨ line = "</p>" ∨ line = "<p>&nbsp;</p>"
  ∨ text_line set_iter tags paragraphs line.

(** The lines of a content without tags: the three fixed ones, and the
    entities of a whole paragraph. *)
Definition plain_line (paragraphs : list string) (line : string) : Prop :=
  line = "<p>" ∨ line = "</p>" ∨ line = "<p>&nbsp;</p>"
  ∨ ∃ paragraph, paragraph ∈ paragraphs ∧ line = escape_chars paragraph.

(** The characters that a list of paragraphs takes in the content:
    each paragraph and the newline that ends it. *)
Definition paragraphs_extent (paragraphs : list string) : nat :=
  foldr (λ paragraph n, String.length paragraph + 1 + n) 0 paragraphs.

(** [all(p(c) for c in s)] *)
Fixpoint all_chars (p : ascii → bool) (s : string) : bool :=
  match s with
  | "" => true
  | String c s' => p c && all_chars p s'
  end.

(** The characters that [escape_text] rewrites. *)
Definition needs_escape (c : ascii) : bool :=
  Ascii.eqb c "&" || Ascii.eqb c "<" || Ascii.eqb c ">"
  || Ascii.eqb c PyStr.dquote || Ascii.eqb c PyStr.squote
  || Ascii.eqb c PyStr.space.

(** The state of the custom parameters that [add_param] keeps: no two
    identifiers are equal when case is ignored, and none holds a brace. *)
Definition params_ok (_custom_params : list (string * string)) : Prop :=
  NoDup (PyStr.lower <$> _custom_params.*2)
  ∧ Forall (λ param, brace_free param.2) _custom_params.

(** * Properties *)

(** ** Strings *)

Lemma str_app_cons c s t : String c s +:+ t = String c (s +:+ t).
Proof. reflexivity. Qed.

Lemma str_app_nil_l s : "" +:+ s = s.
Proof. reflexivity. Qed.

Lemma str_app_nil_r s : s +:+ "" = s.
Proof. induction s as [|c s IH]; [done|]. by rewrite str_app_cons, IH. Qed.

Lemma str_app_assoc s t u : (s +:+ t) +:+ u = s +:+ t +:+ u.
Proof. induction s as [|c s IH]; [done|]. by rewrite !str_app_cons, IH. Qed.

Lemma str_length_app s t :
  String.length (s +:+ t) = String.length s + String.length t.
Proof. induction s as [|c s IH]; [done|]. rewrite str_app_cons. simpl. by rewrite IH. Qed.

Lemma str_drop_0 s : PyStr.drop 0 s = s.
Proof. by destruct s. Qed.

Lemma str_drop_all s n : String.length s ≤ n → PyStr.drop n s = "".
Proof.
  revert n. induction s as [|c s IH]; intros [|n] Hn; simpl in *; try done; try lia.
  apply IH. lia.
Qed.

Lemma str_drop_app s t : PyStr.drop (String.length s) (s +:+ t) = t.
Proof. induction s as [|c s IH]; [apply str_drop_0|]. by rewrite str_app_cons. Qed.

(** [p] is a prefix of [s] exactly when [s] continues [p]. *)
Lemma str_prefix_app p s : String.prefix p s = true ↔ ∃ r, s = p +:+ r.
Proof.
  revert s. induction p as [|a p IH]; intros s.
  - split; [exists s; done|]. by destruct s.
  - destruct s as [|b s]; simpl.
    + split; [done|]. intros [r Hr]. by rewrite str_app_cons in Hr.
    + destruct (ascii_dec a b) as [->|Hne].
      * rewrite IH. split; intros [r Hr]; exists r.
        -- by rewrite str_app_cons, Hr.
        -- rewrite str_app_cons in Hr. by simplify_eq.
      * split; [done|]. intros [r Hr]. rewrite str_app_cons in Hr. by simplify_eq.
Qed.

Lemma str_prefix_refl_app p r : String.prefix p (p +:+ r) = true.
Proof. apply str_prefix_app. by exists r. Qed.

(** ** [str.replace] *)

Lemma replace_go_skip old new n s :
  PyStr.replace_go old new n s = PyStr.replace_go old new 0 (PyStr.drop n s).
Proof.
  revert n. induction s as [|c s IH]; intros [|n]; try done.
  simpl PyStr.drop. by rewrite <- IH.
Qed.

Lemma replace_go_nil old new n : PyStr.replace_go old new n "" = "".
Proof. done. Qed.

(** The two cases of one step of the scan, for a pattern that is not
    empty. *)
Lemma replace_go_hit old new r :
  old ≠ "" →
  PyStr.replace_go old new 0 (old +:+ r) = new +:+ PyStr.replace_go old new 0 r.
Proof.
  intros Hold. destruct old as [|a old]; [done|].
  rewrite str_app_cons. cbn [PyStr.replace_go].
  rewrite <- str_app_cons, str_prefix_refl_app.
  rewrite replace_go_skip. simpl String.length.
  replace (S (String.length old) - 1) with (String.length old) by lia.
  by rewrite str_drop_app.
Qed.

Lemma replace_go_miss old new c s :
  String.prefix old (String c s) = false →
  PyStr.replace_go old new 0 (String c s) = String c (PyStr.replace_go old new 0 s).
Proof. intros H. cbn [PyStr.replace_go]. by rewrite H. Qed.

Lemma replace_nonempty old new s :
  old ≠ "" → PyStr.replace old new s = PyStr.replace_go old new 0 s.
Proof. by destruct old. Qed.

Lemma placeholder_nonempty key : placeholder key ≠ "".
Proof. done. Qed.


(** ** Variable substitution: one pass per key *)

Lemma replace_variables_app template vars1 vars2 :
  replace_variables template (vars1 ++ vars2)
  = replace_variables (replace_variables template vars1) vars2.
Proof.
  revert template. induction vars1 as [|[k v] vars1 IH]; intros t; [done|].
  simpl. apply IH.
Qed.



(** ** Placeholders of absent keys *)

Lemma has_char_app c s t :
  has_char c (s +:+ t) = has_char c s || has_char c t.
Proof.
  induction s as [|a s IH]; [done|]. rewrite str_app_cons. simpl.
  by rewrite IH, orb_assoc.
Qed.

(** How a prefix [old] of [u +:+ t] lies: inside [u], or across the
    seam. *)
Lemma prefix_across u t old r :
  u +:+ t = old +:+ r →
  (∃ u2, u = old +:+ u2) ∨
  (∃ o2, o2 ≠ "" ∧ old = u +:+ o2 ∧ t = o2 +:+ r).
Proof.
  revert old. induction u as [|c u IH]; intros old H.
  - destruct old as [|a old]; [left; by exists ""|].
    right. exists (String a old). by rewrite str_app_nil_l in *.
  - destruct old as [|a old]; [left; by exists (String c u)|].
    rewrite !str_app_cons in H. injection H as -> H.
    destruct (IH _ H) as [[u2 ->]|(o2 & ? & -> & ->)].
    + left. by exists u2.
    + right. by exists o2.
Qed.

(** Two texts that end at their first closing brace and agree up to it
    are equal. *)
Lemma inner_unique a b r1 r2 :
  has_char PyStr.rbrace a = false → has_char PyStr.rbrace b = false →
  a +:+ String PyStr.rbrace r1 = b +:+ String PyStr.rbrace r2 → a = b.
Proof.
  revert b. induction a as [|x a IH]; intros [|y b] Ha Hb H; try done.
  - rewrite str_app_nil_l, str_app_cons in H. injection H as <- _. by simpl in Hb.
  - rewrite str_app_nil_l, str_app_cons in H. injection H as -> _. by simpl in Ha.
  - rewrite !str_app_cons in H. injection H as -> H. simpl in Ha, Hb.
    apply orb_false_elim in Ha as [_ Ha]. apply orb_false_elim in Hb as [_ Hb].
    f_equal. by apply IH.
Qed.

Lemma placeholder_unfold key :
  placeholder key = String PyStr.lbrace (key +:+ String PyStr.rbrace "").
Proof. reflexivity. Qed.

Lemma placeholder_app key r :
  placeholder key +:+ r = String PyStr.lbrace (key +:+ String PyStr.rbrace r).
Proof. by rewrite placeholder_unfold, str_app_cons, str_app_assoc. Qed.

Lemma placeholder_out_of_reach key name :
  brace_free key → brace_free name → key ≠ name →
  out_of_reach (placeholder key) (placeholder name).
Proof.
  intros [Hk1 Hk2] [Hn1 Hn2] Hne.
  assert (Hstart : ∀ w,
    String.prefix (placeholder key) (placeholder name +:+ w) = true → False).
  { intros w [r Hr]%str_prefix_app. rewrite !placeholder_unfold, !str_app_cons in Hr.
    injection Hr as Hr. rewrite !str_app_assoc, !str_app_cons, !str_app_nil_l in Hr.
    by apply inner_unique in Hr. }
  split.
  - intros u w Hp. pose proof Hp as [r Hr]%str_prefix_app.
    apply prefix_across in Hr as [[u2 ->]|(o2 & Ho2 & Hold & Hmid)].
    { rewrite str_length_app. lia. }
    destruct u as [|c u].
    { exfalso. rewrite str_app_nil_l in Hp. by apply (Hstart w). }
    exfalso. rewrite placeholder_unfold, str_app_cons in Hold. injection Hold as _ Hold.
    destruct o2 as [|x o2]; [done|].
    rewrite placeholder_unfold, !str_app_cons in Hmid. injection Hmid as <- _.
    apply (f_equal (has_char PyStr.lbrace)) in Hold.
    rewrite !has_char_app, Hk1 in Hold. simpl in Hold.
    by rewrite orb_true_r in Hold.
  - intros m1 m2 w Hmid Hm2.
    destruct (String.prefix (placeholder key) (m2 +:+ w)) eqn:Hp; [exfalso|done].
    destruct m1 as [|c m1].
    { rewrite str_app_nil_l in Hmid. subst m2. by apply (Hstart w). }
    apply str_prefix_app in Hp as [r Hr].
    destruct m2 as [|x m2]; [done|].
    rewrite placeholder_unfold, !str_app_cons in Hr. injection Hr as -> _.
    rewrite placeholder_unfold, !str_app_cons in Hmid. injection Hmid as _ Hmid.
    apply (f_equal (has_char PyStr.lbrace)) in Hmid.
    rewrite !has_char_app, Hn1 in Hmid. simpl in Hmid.
    by rewrite orb_true_r in Hmid.
Qed.

(** A replacement passes over a text that is out of the reach of its
    pattern, and works on both sides of it as it does on each alone. *)
Lemma replace_go_inside old new mid post :
  out_of_reach old mid →
  ∀ m2 m1, mid = m1 +:+ m2 →
    PyStr.replace_go old new 0 (m2 +:+ post)
    = m2 +:+ PyStr.replace_go old new 0 post.
Proof.
  intros [_ Hin]. induction m2 as [|c m2 IH]; intros m1 Hmid; [done|].
  rewrite str_app_cons, replace_go_miss.
  - rewrite (IH (m1 +:+ String c "")); [done|].
    by rewrite str_app_assoc.
  - rewrite <- str_app_cons. by apply (Hin m1).
Qed.

Lemma replace_go_around old new mid :
  old ≠ "" → mid ≠ "" → out_of_reach old mid →
  ∀ pre post,
    PyStr.replace_go old new 0 (pre +:+ mid +:+ post)
    = PyStr.replace_go old new 0 pre +:+ mid +:+ PyStr.replace_go old new 0 post.
Proof.
  intros Hold Hmid Hreach pre.
  remember (String.length pre) as n eqn:Hn. revert pre Hn.
  induction n as [n IH] using lt_wf_ind. intros pre Hn post.
  destruct pre as [|c pre].
  { rewrite str_app_nil_l. apply (replace_go_inside _ _ _ _ Hreach mid "").
    by rewrite str_app_nil_l. }
  destruct (String.prefix old (String c pre +:+ mid +:+ post)) eqn:Hp.
  - pose proof (proj1 Hreach _ _ Hp) as Hlen.
    apply str_prefix_app in Hp as [r Hr].
    apply prefix_across in Hr as [[u2 Hu2]|(o2 & Ho2 & -> & _)].
    + rewrite Hu2, str_app_assoc, !replace_go_hit, str_app_assoc by done.
      f_equal. apply (IH (String.length u2)); [|done].
      subst n. rewrite Hu2, str_length_app. destruct old; [done|simpl; lia].
    + rewrite str_length_app in Hlen. destruct o2; [done|simpl in Hlen; lia].
  - rewrite str_app_cons in Hp |- *. rewrite replace_go_miss by done.
    rewrite replace_go_miss.
    + rewrite str_app_cons. f_equal. apply (IH (String.length pre)); [|done].
      subst n. simpl. lia.
    + destruct (String.prefix old (String c pre)) eqn:Hp'; [|done].
      apply str_prefix_app in Hp' as [r Hr].
      rewrite <- str_app_cons, Hr, str_app_assoc, str_prefix_refl_app in Hp. done.
Qed.

Lemma replace_placeholder_around key value name pre post :
  brace_free key → brace_free name → key ≠ name →
  PyStr.replace (placeholder key) value (pre +:+ placeholder name +:+ post)
  = PyStr.replace (placeholder key) value pre +:+ placeholder name
    +:+ PyStr.replace (placeholder key) value post.
Proof.
  intros Hk Hn Hne. rewrite !replace_nonempty by apply placeholder_nonempty.
  apply replace_go_around; [done..|].
  by apply placeholder_out_of_reach.
Qed.

(** C7, as stated, fails where a placeholder holds an opening brace:
    the text [{a{b}] has the placeholder [a{b], which is not a key of
    the mapping, yet the pass for the key [b] rewrites its tail. *)
Lemma absent_placeholder_counterexample :
  "a{b" ∈ validate_template_params "{a{b}"
  ∧ ("a{b" ∉ [("b", "X")].*1)
  ∧ replace_variables "{a{b}" [("b", "X")] = "{aX"
  ∧ contains (placeholder "a{b") (replace_variables "{a{b}" [("b", "X")]) = false.
Proof.
  split; [|split; [|split; reflexivity]].
  - apply elem_of_list_to_set. by apply (bool_decide_unpack _).
  - by apply (bool_decide_unpack _).
Qed.

(** C7 (amended): when the name of a placeholder is not a key of the
    mapping, and neither that name nor any key holds a brace character,
    [replace_variables] leaves the text [{name}] where it is and
    substitutes on either side of it as it would on each side alone.
    The function is total: it returns a string in every case and has no
    way to report a missing parameter. *)
Theorem replace_variables_keeps_absent name pre post
    (variables : list (string * string)) :
  brace_free name →
  Forall (λ kv, brace_free kv.1) variables →
  name ∉ variables.*1 →
  replace_variables (pre +:+ placeholder name +:+ post) variables
  = replace_variables pre variables +:+ placeholder name
    +:+ replace_variables post variables.
Proof.
  intros Hname Hkeys Habsent. revert pre post.
  induction variables as [|[key value] variables IH]; intros pre post; [done|].
  apply Forall_cons in Hkeys as [Hkey Hkeys]. simpl in Hkey, Habsent.
  apply not_elem_of_cons in Habsent as [Hne Habsent].
  cbn [replace_variables].
  rewrite replace_placeholder_around by done.
  by apply IH.
Qed.

Lemma replace_variables_keeps_absent_witness :
  replace_variables "Dear {name}, your code is {code}" [("code", "42")]
  = "Dear {name}, your code is 42".
Proof.
  apply (replace_variables_keeps_absent "name" "Dear " ", your code is {code}"
           [("code", "42")]).
  - by split.
  - by repeat constructor.
  - by apply (bool_decide_unpack _).
Defined.

(** ** Parameter extraction *)

Lemma take_inner_spec s run rest :
  take_inner s = (run, rest) →
  s = run +:+ rest ∧ has_char PyStr.rbrace run = false
  ∧ (rest = "" ∨ ∃ r, rest = String PyStr.rbrace r).
Proof.
  revert run rest. induction s as [|c s IH]; intros run rest H; simpl in H.
  { injection H as <- <-. auto. }
  destruct (Ascii.eqb_spec c PyStr.rbrace) as [->|Hc].
  { injection H as <- <-. eauto. }
  destruct (take_inner s) as [run' rest'] eqn:Hs. injection H as <- <-.
  destruct (IH _ _ eq_refl) as (-> & Hrun & Hrest).
  split; [done|]. split; [|done]. simpl.
  by apply Ascii.eqb_neq in Hc as ->.
Qed.

Lemma take_inner_app a r :
  has_char PyStr.rbrace a = false →
  take_inner (a +:+ String PyStr.rbrace r) = (a, String PyStr.rbrace r).
Proof.
  induction a as [|c a IH]; intros Ha; [done|].
  simpl in Ha. apply orb_false_elim in Ha as [Hc Ha].
  rewrite str_app_cons. simpl. by rewrite Hc, IH.
Qed.

Lemma match_at_Some s inner :
  match_at s = Some inner →
  inner ≠ "" ∧ has_char PyStr.rbrace inner = false
  ∧ ∃ r, s = placeholder inner +:+ r.
Proof.
  destruct s as [|c s]; [done|]. simpl.
  destruct (Ascii.eqb_spec c PyStr.lbrace) as [->|]; [|done].
  destruct (take_inner s) as [run rest] eqn:Hs.
  apply take_inner_spec in Hs as (-> & Hrun & Hrest).
  destruct run as [|a run]; [done|]. destruct rest as [|b rest]; [done|].
  intros [= <-]. destruct Hrest as [|[r [= -> ->]]]; [done|].
  split; [done|]. split; [done|]. exists r.
  by rewrite placeholder_app.
Qed.

Lemma match_at_placeholder inner r :
  inner ≠ "" → has_char PyStr.rbrace inner = false →
  match_at (placeholder inner +:+ r) = Some inner.
Proof.
  intros Hne Hin. rewrite placeholder_app.
  cbn [match_at]. rewrite Ascii.eqb_refl, take_inner_app by done.
  by destruct inner.
Qed.

Lemma findall_go_skip n s : findall_go n s = findall_go 0 (PyStr.drop n s).
Proof.
  revert n. induction s as [|c s IH]; intros [|n]; try done.
  simpl PyStr.drop. by rewrite <- IH.
Qed.

Lemma findall_go_hit inner r :
  inner ≠ "" → has_char PyStr.rbrace inner = false →
  findall_go 0 (placeholder inner +:+ r) = inner :: findall_go 0 r.
Proof.
  intros Hne Hin. pose proof (match_at_placeholder inner r Hne Hin) as Hm.
  rewrite placeholder_app in Hm |- *.
  cbn [findall_go]. rewrite Hm. f_equal.
  rewrite findall_go_skip.
  replace (String.length inner + 1)
    with (String.length (inner +:+ String PyStr.rbrace ""))
    by (rewrite str_length_app; simpl; lia).
  by rewrite <- (str_drop_app (inner +:+ String PyStr.rbrace "") r) at 2;
    rewrite str_app_assoc.
Qed.

Lemma findall_go_miss c s :
  match_at (String c s) = None → findall_go 0 (String c s) = findall_go 0 s.
Proof. intros H. cbn [findall_go]. by rewrite H. Qed.

Lemma braced_substring_cons c text inner :
  braced_substring text inner → braced_substring (String c text) inner.
Proof.
  intros (? & ? & pre & post & ->). split; [done|]. split; [done|].
  by exists (String c pre), post.
Qed.

Lemma braced_substring_app u text inner :
  braced_substring text inner → braced_substring (u +:+ text) inner.
Proof.
  intros H. induction u as [|c u IH]; [done|].
  rewrite str_app_cons. by apply braced_substring_cons.
Qed.


(** Every match reported by the scan is a braced substring. *)
Lemma findall_sound text inner :
  inner ∈ findall text → braced_substring text inner.
Proof.
  unfold findall. remember (String.length text) as n eqn:Hn.
  revert text Hn. induction n as [n IH] using lt_wf_ind. intros text Hn.
  destruct text as [|c text]; [by intros ?%elem_of_nil|].
  destruct (match_at (String c text)) as [m|] eqn:Hm.
  - pose proof Hm as (Hne & Hin & r & Hr)%match_at_Some.
    rewrite Hr, findall_go_hit by done.
    intros [->|Hrest]%elem_of_cons.
    + split; [done|]. split; [done|]. exists "", r. by rewrite str_app_nil_l.
    + apply braced_substring_app. apply (IH (String.length r)); [|done..].
      subst n. rewrite Hr, str_length_app. simpl. lia.
  - rewrite findall_go_miss by done. intros Hrest.
    apply braced_substring_cons. apply (IH (String.length text)); [|done..].
    subst n. simpl. lia.
Qed.





(** ** Validation *)

(** C10: [validate_template] returns the pair of a flag and the set of
    undefined parameters; that set is the union of the parameters
    extracted from the subject and from the content, minus the available
    ones, and the flag is true exactly when the set is empty.  The
    function is total. *)
Theorem validate_template_spec subject content available :
  let undefined := (validate_template subject content available).2 in
  let ok := (validate_template subject content available).1 in
  undefined
  = (validate_template_params subject ∪ validate_template_params content)
    ∖ available
  ∧ (∀ x, x ∈ undefined ↔
          (x ∈ findall subject ∨ x ∈ findall content) ∧ x ∉ available)
  ∧ (ok = true ↔ undefined = ∅)
  ∧ (ok = true ↔
     ∀ x, x ∈ findall subject ∨ x ∈ findall content → x ∈ available).
Proof.
  cbn zeta. unfold validate_template, get_template_params,
    validate_template_params. cbn [fst snd].
  split; [done|]. split; [|split].
  - intros x. rewrite elem_of_difference, elem_of_union, !elem_of_list_to_set.
    done.
  - rewrite Nat.eqb_eq, size_empty_iff. by rewrite leibniz_equiv_iff.
  - rewrite Nat.eqb_eq, size_empty_iff. split.
    + intros Hempty x Hx. destruct (decide (x ∈ available)); [done|].
      exfalso. apply (not_elem_of_empty (C:=gset string) x), Hempty.
      rewrite elem_of_difference, elem_of_union, !elem_of_list_to_set. done.
    + intros Hall x.
      rewrite elem_of_difference, elem_of_union, !elem_of_list_to_set.
      split; [|by intros ?%not_elem_of_empty].
      intros [Hx Hnot]. by apply Hall in Hx.
Qed.

(** ** The renderer: paragraphs *)

Section RendererFacts.

Variable set_iter : list string → list string.

Lemma split_nonempty sep s : PyStr.split sep s ≠ [].
Proof.
  destruct s as [|c s]; [done|]. simpl.
  destruct (Ascii.eqb c sep); [done|]. by destruct (PyStr.split sep s).
Qed.

(** Splitting distributes over a separator. *)
Lemma split_app sep a b :
  PyStr.split sep (a +:+ String sep b) = PyStr.split sep a ++ PyStr.split sep b.
Proof.
  induction a as [|c a IH].
  - rewrite str_app_nil_l. simpl. by rewrite Ascii.eqb_refl.
  - rewrite str_app_cons. simpl. destruct (Ascii.eqb c sep); [by rewrite IH|].
    rewrite IH. destruct (PyStr.split sep a) eqn:Ha; [|done].
    by apply split_nonempty in Ha.
Qed.

Lemma split_newlines n b :
  PyStr.split PyStr.newline (newlines n +:+ b)
  = repeat "" n ++ PyStr.split PyStr.newline b.
Proof.
  induction n as [|n IH]; [done|].
  cbn [newlines repeat]. rewrite str_app_cons. simpl. by rewrite IH.
Qed.

Lemma render_loop_app tags ps1 ps2 st :
  render_loop set_iter tags (ps1 ++ ps2) st
  = render_loop set_iter tags ps2 (render_loop set_iter tags ps1 st).
Proof. apply fold_left_app. Qed.

Lemma render_loop_blanks tags n st :
  render_loop set_iter tags (repeat "" (S n)) st
  = {| html_lines := if last_empty st then html_lines st
                     else html_lines st ++ ["<p>&nbsp;</p>"];
       current_pos := current_pos st + S n;
       last_empty := true |}.
Proof.
  revert st. induction n as [|n IH]; intros st.
  - simpl. by destruct (last_empty st).
  - change (repeat "" (S (S n))) with ("" :: repeat "" (S n)).
    unfold render_loop in *. cbn [fold_left]. rewrite IH.
    unfold paragraph_step. destruct (last_empty st); simpl; f_equal; lia.
Qed.

(** C9: the empty content renders as one placeholder paragraph,
    whatever the tags: splitting the empty string gives one empty
    paragraph, and no blank line came before it. *)
Theorem render_empty_content tags :
  PyStr.split PyStr.newline "" = [""]
  ∧ render set_iter "" tags = "<p>&nbsp;</p>"
  ∧ get_html_content set_iter (update_template "" "" true tags "Times New Roman" "12")
    = "<p>&nbsp;</p>".
Proof. by repeat split. Qed.

(** A text that ends with a character other than the separator ends
    with a paragraph that is not empty. *)
Lemma split_snoc_char sep a c :
  Ascii.eqb c sep = false →
  ∃ ps d q, PyStr.split sep (a +:+ String c "") = ps ++ [String d q].
Proof.
  intros Hc. induction a as [|e a (ps & d & q & IH)].
  - exists [], c, "". rewrite str_app_nil_l. simpl. by rewrite Hc.
  - rewrite str_app_cons. simpl. rewrite IH. destruct (Ascii.eqb e sep).
    + by exists ("" :: ps), d, q.
    + destruct ps as [|h ps]; [by exists [], e, (String d q)|].
      by exists (String e h :: ps), d, q.
Qed.

(** A paragraph that is not empty resets the flag of the blank lines. *)
Lemma paragraph_step_resets tags st c p :
  last_empty (paragraph_step set_iter tags st (String c p)) = false.
Proof. done. Qed.

Lemma render_loop_snoc_resets tags ps c p st :
  last_empty (render_loop set_iter tags (ps ++ [String c p]) st) = false.
Proof. by rewrite render_loop_app. Qed.

(** C5: the first blank line of a run appends the placeholder
    paragraph, every further blank line of the run appends nothing,
    and each of them moves the absolute position forward by one.  A
    paragraph that is not empty resets the flag, whatever it was, so
    the run of blank lines that follows it leaves one placeholder of
    its own.  The same holds when the runs are read off the content:
    two or more newlines in a row between [a] and [b] act on the lines
    as a single blank line does, and after a character other than a
    newline they add exactly one placeholder.  The content [Hello],
    newline, newline, [World] renders three paragraph elements, and
    [Hello], newline, [World] renders two; a content with two runs of
    blank lines renders a placeholder for each. *)
Theorem blank_lines_collapse tags lines pos n a b le c p :
  paragraph_step set_iter tags
    {| html_lines := lines; current_pos := pos; last_empty := false |} ""
  = {| html_lines := lines ++ ["<p>&nbsp;</p>"]; current_pos := pos + 1;
       last_empty := true |}
  ∧ paragraph_step set_iter tags
      {| html_lines := lines; current_pos := pos; last_empty := true |} ""
    = {| html_lines := lines; current_pos := pos + 1; last_empty := true |}
  ∧ render_loop set_iter tags (repeat "" (S n))
      {| html_lines := lines; current_pos := pos; last_empty := false |}
    = {| html_lines := lines ++ ["<p>&nbsp;</p>"]; current_pos := pos + S n;
         last_empty := true |}
  ∧ (let st := render_loop set_iter tags (PyStr.split PyStr.newline a) loop_init in
     render_loop set_iter tags
       (PyStr.split PyStr.newline (a +:+ newlines (S (S n)) +:+ b)) loop_init
     = render_loop set_iter tags (PyStr.split PyStr.newline b)
         {| html_lines := if last_empty st then html_lines st
                          else html_lines st ++ ["<p>&nbsp;</p>"];
            current_pos := current_pos st + S n;
            last_empty := true |})
  ∧ PyStr.count "<p" (render set_iter ("Hello" +:+ nl +:+ nl +:+ "World") ∅) = 3
  ∧ PyStr.count "<p" (render set_iter ("Hello" +:+ nl +:+ "World") ∅) = 2
  ∧ last_empty
      (paragraph_step set_iter tags
         {| html_lines := lines; current_pos := pos; last_empty := le |}
         (String c p)) = false
  ∧ render_loop set_iter tags (String c p :: repeat "" (S n))
      {| html_lines := lines; current_pos := pos; last_empty := le |}
    = {| html_lines :=
           ((lines ++ ["<p>"])
              ++ render_runs set_iter (String.length (String c p)) tags pos
                   (String c p) 0
              ++ ["</p>"]) ++ ["<p>&nbsp;</p>"];
         current_pos := pos + (String.length (String c p) + 1) + S n;
         last_empty := true |}
  ∧ (Ascii.eqb c PyStr.newline = false →
     let st :=
       render_loop set_iter tags
         (PyStr.split PyStr.newline (a +:+ String c "")) loop_init in
     last_empty st = false
     ∧ render_loop set_iter tags
         (PyStr.split PyStr.newline
            (a +:+ String c (newlines (S (S n)) +:+ b))) loop_init
       = render_loop set_iter tags (PyStr.split PyStr.newline b)
           {| html_lines := html_lines st ++ ["<p>&nbsp;</p>"];
              current_pos := current_pos st + S n;
              last_empty := true |})
  ∧ render set_iter
      ("a" +:+ nl +:+ nl +:+ "b" +:+ nl +:+ nl +:+ nl +:+ "c") ∅
    = PyStr.join nl
        ["<p>"; "a"; "</p>"; "<p>&nbsp;</p>"; "<p>"; "b"; "</p>";
         "<p>&nbsp;</p>"; "<p>"; "c"; "</p>"].
Proof.
  split; [done|]. split; [done|]. split; [by rewrite render_loop_blanks|].
  split.
  { cbn zeta.
    change (newlines (S (S n)) +:+ b)
      with (String PyStr.newline (newlines (S n) +:+ b)).
    rewrite split_app, split_newlines.
    by rewrite !render_loop_app, render_loop_blanks. }
  split; [reflexivity|]. split; [reflexivity|]. split; [done|].
  split.
  { change (String c p :: repeat "" (S n))
      with ([String c p] ++ repeat "" (S n)).
    by rewrite render_loop_app, render_loop_blanks. }
  split; [|reflexivity].
  intros Hc. cbn zeta.
  destruct (split_snoc_char PyStr.newline a c Hc) as (ps & d & q & Hsplit).
  assert (last_empty
            (render_loop set_iter tags
               (PyStr.split PyStr.newline (a +:+ String c "")) loop_init)
          = false) as Hlast.
  { rewrite Hsplit. apply render_loop_snoc_resets. }
  split; [done|].
  replace (a +:+ String c (newlines (S (S n)) +:+ b))
    with ((a +:+ String c "")
            +:+ String PyStr.newline (newlines (S n) +:+ b)).
  2:{ by rewrite str_app_assoc. }
  rewrite split_app, split_newlines.
  by rewrite !render_loop_app, render_loop_blanks, Hlast.
Qed.

(** ** The renderer reads the tags through [tags_at] only *)

Lemma run_end_ext tags tags' current_pos current_tags rest end_pos :
  (∀ i, tags_at tags i = tags_at tags' i) →
  run_end tags current_pos current_tags rest end_pos
  = run_end tags' current_pos current_tags rest end_pos.
Proof.
  intros Hext. revert end_pos.
  induction rest as [|c rest IH]; intros end_pos; [done|].
  simpl. by rewrite Hext, IH.
Qed.

Lemma render_runs_ext tags tags' fuel current_pos paragraph pos :
  (∀ i, tags_at tags i = tags_at tags' i) →
  render_runs set_iter fuel tags current_pos paragraph pos
  = render_runs set_iter fuel tags' current_pos paragraph pos.
Proof.
  intros Hext. revert pos. induction fuel as [|fuel IH]; intros pos; [done|].
  simpl. destruct (pos <? String.length paragraph); [|done].
  rewrite Hext. rewrite (run_end_ext tags tags') by done. by rewrite IH.
Qed.

Lemma render_ext tags tags' content :
  (∀ i, tags_at tags i = tags_at tags' i) →
  render set_iter content tags = render set_iter content tags'.
Proof.
  intros Hext. unfold render, render_loop. f_equal. f_equal.
  generalize loop_init.
  induction (PyStr.split PyStr.newline content) as [|p ps IH]; intros st; [done|].
  cbn [fold_left]. rewrite IH. f_equal.
  destruct p as [|c p]; [done|]. unfold paragraph_step.
  by rewrite (render_runs_ext tags tags').
Qed.

Lemma filter_not_sel_idemp (l : list string) :
  filter (λ tag, tag ≠ "sel") (filter (λ tag, tag ≠ "sel") l)
  = filter (λ tag, tag ≠ "sel") l.
Proof.
  induction l as [|t l IH]; [done|].
  rewrite filter_cons. destruct (decide (t ≠ "sel")) as [Ht|Ht]; [|done].
  rewrite filter_cons. destruct (decide (t ≠ "sel")); [|done]. by rewrite IH.
Qed.

Lemma tags_at_erase_sel tags i : tags_at (erase_sel tags) i = tags_at tags i.
Proof.
  unfold tags_at, erase_sel. rewrite lookup_omap.
  destruct (tags !! pretty i) as [l|]; [|done]. simpl.
  destruct (filter (λ tag, tag ≠ "sel") l) as [|t l'] eqn:Hl; [done|].
  simpl. by rewrite <- Hl, filter_not_sel_idemp.
Qed.

Lemma tags_at_insert_same tags (k : string) l i :
  filter (λ tag, tag ≠ "sel") l
  = filter (λ tag, tag ≠ "sel") (default [] (tags !! k)) →
  tags_at (<[k:=l]> tags) i = tags_at tags i.
Proof.
  intros Hl. unfold tags_at. destruct (decide (k = pretty i)) as [->|Hne].
  - by rewrite lookup_insert_eq.
  - by rewrite lookup_insert_ne.
Qed.

(** C6: the selection marker is never rendered.  Two tag maps that
    agree once the marker is erased render every content alike; so
    rendering is unchanged when the entry of an offset is replaced by a
    list that differs from it only in occurrences of ['sel'] (the
    marker added, also at an offset that had no entry, or removed), and
    when the marker is erased everywhere. *)
Theorem sel_never_rendered content (tags tags' : tag_map) :
  (erase_sel tags = erase_sel tags' →
   render set_iter content tags = render set_iter content tags')
  ∧ (∀ (k : string) l,
       filter (λ tag, tag ≠ "sel") l
       = filter (λ tag, tag ≠ "sel") (default [] (tags !! k)) →
       render set_iter content (<[k:=l]> tags) = render set_iter content tags)
  ∧ render set_iter content (erase_sel tags) = render set_iter content tags.
Proof.
  split; [|split].
  - intros Heq. apply render_ext. intros i.
    by rewrite <- (tags_at_erase_sel tags), Heq, tags_at_erase_sel.
  - intros k l Hl. apply render_ext. intros i. by apply tags_at_insert_same.
  - apply render_ext, tags_at_erase_sel.
Qed.

(** ** The renderer: runs *)

Lemma same_set_refl a : same_set a a = true.
Proof. by apply bool_decide_eq_true. Qed.

Lemma str_length_drop n s :
  String.length (PyStr.drop n s) = String.length s - n.
Proof.
  revert s. induction n as [|n IH]; intros [|c s]; simpl; done.
Qed.

(** The inner loop stops at the first offset whose tag set differs, or
    at the end of the paragraph. *)
Lemma run_end_spec tags cur current_tags rest e len :
  e + String.length rest = len →
  e ≤ run_end tags cur current_tags rest e ≤ len
  ∧ (∀ i, e ≤ i < run_end tags cur current_tags rest e →
       same_set (tags_at tags (cur + i)) current_tags = true)
  ∧ (run_end tags cur current_tags rest e < len →
       same_set (tags_at tags (cur + run_end tags cur current_tags rest e))
                current_tags = false).
Proof.
  revert e. induction rest as [|c rest IH]; intros e He; simpl in *.
  { split; [lia|]. split; intros; lia. }
  destruct (same_set (tags_at tags (cur + e)) current_tags) eqn:Hsame.
  - destruct (IH (S e)) as (Hle & Hin & Hout); [lia|].
    split; [lia|]. split; [|done].
    intros i Hi. destruct (decide (i = e)) as [->|]; [done|].
    apply Hin. lia.
  - split; [lia|]. split; [intros; lia|done].
Qed.

Lemma paragraph_runs_maximal tags cur paragraph fuel pos :
  pos ≤ String.length paragraph →
  String.length paragraph - pos ≤ fuel →
  maximal_runs tags cur (String.length paragraph) pos
    (paragraph_runs fuel tags cur paragraph pos).
Proof.
  revert pos. induction fuel as [|fuel IH]; intros pos Hpos Hfuel.
  { replace pos with (String.length paragraph) by lia. constructor. }
  cbn [paragraph_runs]. destruct (Nat.ltb_spec pos (String.length paragraph)).
  2:{ replace pos with (String.length paragraph) by lia. constructor. }
  destruct (run_end_spec tags cur (tags_at tags (cur + pos))
              (PyStr.drop (S pos) paragraph) (S pos) (String.length paragraph))
    as (Hle & Hin & Hout).
  { rewrite str_length_drop. lia. }
  constructor; [lia| |done|apply IH; lia].
  intros i Hi. destruct (decide (i = pos)) as [->|]; [apply same_set_refl|].
  apply Hin. lia.
Qed.

(** The division into maximal runs is unique. *)
Lemma maximal_runs_unique tags cur len pos rs rs' :
  maximal_runs tags cur len pos rs →
  maximal_runs tags cur len pos rs' → rs = rs'.
Proof.
  intros H. revert rs'.
  induction H as [|pos e rs Hpos Hin Hout _ IH]; intros rs' H'.
  - inversion H' as [|? e' ? ? ? ? ?]; [done|lia].
  - inversion H' as [|? e' rs0 Hpos' Hin' Hout' Hrest]; subst; [lia|].
    assert (e = e') as <-.
    { destruct (Nat.lt_trichotomy e e') as [Hlt|[->|Hlt]]; [|done|].
      - rewrite Hin' in Hout by lia. discriminate Hout. lia.
      - rewrite Hin in Hout' by lia. discriminate Hout'. lia. }
    f_equal. by apply IH.
Qed.

(** One output line per run. *)
Lemma render_runs_map tags cur paragraph fuel pos :
  render_runs set_iter fuel tags cur paragraph pos
  = map (λ r, render_run set_iter (tags_at tags (cur + r.1))
                (PyStr.slice r.1 r.2 paragraph))
      (paragraph_runs fuel tags cur paragraph pos).
Proof.
  revert pos. induction fuel as [|fuel IH]; intros pos; [done|].
  cbn [render_runs paragraph_runs].
  destruct (pos <? String.length paragraph); [|done].
  cbn [map fst snd]. by rewrite IH.
Qed.

(** [len(paragraph)] iterations are enough: more fuel changes nothing. *)
Lemma paragraph_runs_fuel tags cur paragraph fuel fuel' pos :
  String.length paragraph - pos ≤ fuel →
  String.length paragraph - pos ≤ fuel' →
  paragraph_runs fuel tags cur paragraph pos
  = paragraph_runs fuel' tags cur paragraph pos.
Proof.
  revert fuel' pos. induction fuel as [|fuel IH]; intros fuel' pos H H'.
  - destruct fuel'; [done|]. cbn [paragraph_runs].
    destruct (Nat.ltb_spec pos (String.length paragraph)); [lia|done].
  - destruct fuel' as [|fuel'].
    + cbn [paragraph_runs].
      destruct (Nat.ltb_spec pos (String.length paragraph)); [lia|done].
    + cbn [paragraph_runs].
      destruct (Nat.ltb_spec pos (String.length paragraph)); [|done].
      destruct (run_end_spec tags cur (tags_at tags (cur + pos))
                  (PyStr.drop (S pos) paragraph) (S pos)
                  (String.length paragraph)) as (Hle & _).
      { rewrite str_length_drop. lia. }
      f_equal. apply IH; lia.
Qed.

(** C3 (amended): in every paragraph the renderer emits one line per
    maximal run of adjacent offsets with the same tag set (the selection
    marker removed): the runs divide the paragraph, inside a run all
    offsets have the tag set of its first offset, the offset after a run
    has another one, so no two adjacent lines stand for the same tag
    set, and there is one such division only;
    [len(paragraph)] iterations of the loop are enough.  For the content
    [Hello World] with [bold] at the offsets 0 to 4 the output has one
    span, with [font-weight: bold], around [Hello], and [World] is not
    wrapped. *)
Theorem runs_are_maximal tags cur paragraph :
  (∀ l, set_iter l ≡ₚ remove_dups l) →
  let len := String.length paragraph in
  let rs := paragraph_runs len tags cur paragraph 0 in
  maximal_runs tags cur len 0 rs
  ∧ (∀ rs', maximal_runs tags cur len 0 rs' → rs' = rs)
  ∧ render_runs set_iter len tags cur paragraph 0
    = map (λ r, render_run set_iter (tags_at tags (cur + r.1))
                  (PyStr.slice r.1 r.2 paragraph)) rs
  ∧ (∀ fuel, len ≤ fuel →
       render_runs set_iter fuel tags cur paragraph 0
       = render_runs set_iter len tags cur paragraph 0)
  ∧ render set_iter "Hello World" (tag_range 0 5 ["bold"])
    = PyStr.join nl
        ["<p>"; span "font-weight: bold" "Hello"; "&nbsp;World"; "</p>"]
  ∧ PyStr.count "<span" (render set_iter "Hello World" (tag_range 0 5 ["bold"]))
    = 1.
Proof.
  intros Hiter len rs.
  assert (Hmax : maximal_runs tags cur len 0 rs).
  { apply paragraph_runs_maximal; lia. }
  assert (Hbold : set_iter ["bold"] = ["bold"]).
  { apply Permutation_singleton_r. by rewrite Hiter. }
  assert (Hexample : render set_iter "Hello World" (tag_range 0 5 ["bold"])
    = PyStr.join nl
        ["<p>"; span "font-weight: bold" "Hello"; "&nbsp;World"; "</p>"]).
  { vm_compute. rewrite Hbold. reflexivity. }
  split; [done|]. split; [|split; [|split; [|split]]].
  - intros rs' Hrs'. by apply (maximal_runs_unique tags cur len 0).
  - apply render_runs_map.
  - intros fuel Hfuel. rewrite !render_runs_map.
    by rewrite (paragraph_runs_fuel tags cur paragraph fuel len) by lia.
  - done.
  - by rewrite Hexample.
Qed.

(** The declarations for [bold], [italic] and [underline] come first
    and in that order; the font declarations follow in the order in
    which the set is iterated. *)
Lemma build_styles_order current_tags :
  build_styles set_iter current_tags
  = (if bool_decide ("bold" ∈ current_tags) then ["font-weight: bold"] else [])
    ++ (if bool_decide ("italic" ∈ current_tags)
        then ["font-style: italic"] else [])
    ++ (if bool_decide ("underline" ∈ current_tags)
        then ["text-decoration: underline"] else [])
    ++ flat_map font_style (set_iter current_tags).
Proof. reflexivity. Qed.

(** ** The renderer: escaping *)

Lemma str_prefix_nil s : String.prefix "" s = true.
Proof. by destruct s. Qed.

Lemma replace_char a new s :
  PyStr.replace (String a "") new s = subst_char a new s.
Proof.
  unfold PyStr.replace. induction s as [|c s IH]; [done|].
  cbn [PyStr.replace_go subst_char String.prefix].
  destruct (ascii_dec a c) as [->|Hne].
  - rewrite str_prefix_nil, Ascii.eqb_refl. simpl String.length.
    change (1 - 1) with 0. by rewrite IH.
  - destruct (Ascii.eqb_spec c a) as [->|_]; [done|]. by rewrite IH.
Qed.

Lemma subst_char_app a new s t :
  subst_char a new (s +:+ t) = subst_char a new s +:+ subst_char a new t.
Proof.
  induction s as [|c s IH]; [done|].
  rewrite str_app_cons. cbn [subst_char]. by rewrite IH, str_app_assoc.
Qed.

Lemma escape_text_subst s :
  escape_text s
  = subst_char " " "&nbsp;"
      (subst_char PyStr.squote "&#x27;"
         (subst_char PyStr.dquote "&quot;"
            (subst_char ">" "&gt;"
               (subst_char "<" "&lt;" (subst_char "&" "&amp;" s))))).
Proof.
  unfold escape_text, PyStr.html_escape, PyStr.str1. by rewrite !replace_char.
Qed.

Lemma escape_text_app s t :
  escape_text (s +:+ t) = escape_text s +:+ escape_text t.
Proof. rewrite !escape_text_subst. by rewrite !subst_char_app. Qed.

Lemma escape_text_char c : escape_text (PyStr.str1 c) = esc_char c.
Proof. destruct c as [[] [] [] [] [] [] [] []]; reflexivity. Qed.

(** Escaping works character by character; a space becomes the entity
    after the escaping, so the ampersand of that entity stays. *)
Lemma escape_text_charwise s : escape_text s = escape_chars s.
Proof.
  induction s as [|c s IH]; [done|].
  change (String c s) with (PyStr.str1 c +:+ s).
  by rewrite escape_text_app, escape_text_char, IH.
Qed.

Lemma well_escaped_esc_char c t :
  well_escaped (esc_char c +:+ t) = well_escaped t.
Proof.
  destruct c as [[] [] [] [] [] [] [] []]; try reflexivity;
    destruct t; reflexivity.
Qed.

Lemma well_escaped_escape_chars s : well_escaped (escape_chars s) = true.
Proof.
  induction s as [|c s IH]; [done|].
  cbn [escape_chars]. by rewrite well_escaped_esc_char.
Qed.

Lemma well_escaped_no_bracket s :
  well_escaped s = true → has_char "<" s = false ∧ has_char ">" s = false.
Proof.
  induction s as [|c s IH]; [done|]. cbn [well_escaped has_char].
  destruct (Ascii.eqb c "<"); [done|]. destruct (Ascii.eqb c ">"); [done|].
  simpl. destruct (Ascii.eqb c "&"); [|done].
  intros [_ H]%andb_true_iff. by apply IH.
Qed.

Lemma render_run_line tags ps paragraph offset pos end_pos :
  paragraph ∈ ps →
  line_ok set_iter tags ps
    (render_run set_iter (tags_at tags offset) (PyStr.slice pos end_pos paragraph)).
Proof.
  intros Hin. do 3 right. exists paragraph, pos, end_pos, offset.
  split; [done|]. cbn zeta. rewrite <- escape_text_charwise.
  destruct (tags_at tags offset); [by left|]. by right.
Qed.

Lemma render_runs_lines ps tags cur paragraph fuel pos :
  paragraph ∈ ps →
  Forall (line_ok set_iter tags ps)
    (render_runs set_iter fuel tags cur paragraph pos).
Proof.
  intros Hin. revert pos. induction fuel as [|fuel IH]; intros pos; [done|].
  cbn [render_runs]. destruct (pos <? String.length paragraph); [|done].
  constructor; [by apply render_run_line|apply IH].
Qed.

Lemma paragraph_step_lines ps tags st paragraph :
  paragraph ∈ ps →
  Forall (line_ok set_iter tags ps)
    (html_lines (paragraph_step set_iter tags st paragraph)) ↔
  Forall (line_ok set_iter tags ps) (html_lines st).
Proof.
  intros Hin. unfold paragraph_step. destruct paragraph as [|c paragraph].
  - destruct (last_empty st); cbn [html_lines]; [done|].
    rewrite Forall_app, Forall_singleton. unfold line_ok at 2. tauto.
  - cbn [html_lines]. rewrite !Forall_app, !Forall_singleton.
    pose proof (render_runs_lines ps tags (current_pos st) (String c paragraph)
                  (String.length (String c paragraph)) 0 Hin).
    unfold line_ok at 2 4. tauto.
Qed.

Lemma render_loop_lines ps tags qs st :
  qs ⊆ ps →
  Forall (line_ok set_iter tags ps) (html_lines st) →
  Forall (line_ok set_iter tags ps)
    (html_lines (render_loop set_iter tags qs st)).
Proof.
  revert st. induction qs as [|q qs IH]; intros st Hsub Hst; [done|].
  unfold render_loop in *. cbn [fold_left]. apply IH.
  - intros x Hx. apply Hsub. by right.
  - apply paragraph_step_lines; [|done]. apply Hsub. by left.
Qed.

Lemma tags_at_empty i : tags_at ∅ i = [].
Proof. unfold tags_at. by rewrite lookup_empty. Qed.

(** Without tags a paragraph is a single run. *)
Lemma run_end_no_tags cur rest e :
  run_end ∅ cur [] rest e = e + String.length rest.
Proof.
  revert e. induction rest as [|c rest IH]; intros e; simpl; [lia|].
  rewrite tags_at_empty, same_set_refl, IH. lia.
Qed.

Lemma str_substring_all s : String.substring 0 (String.length s) s = s.
Proof. induction s as [|c s IH]; [done|]. simpl. by rewrite IH. Qed.

Lemma render_runs_no_tags cur paragraph :
  paragraph ≠ "" →
  render_runs set_iter (String.length paragraph) ∅ cur paragraph 0
  = [escape_text paragraph].
Proof.
  destruct paragraph as [|c p]; [done|]. intros _.
  cbn [String.length render_runs Nat.ltb Nat.leb PyStr.drop].
  rewrite !tags_at_empty, !run_end_no_tags. cbn [render_run]. f_equal.
  - unfold PyStr.slice. rewrite Nat.sub_0_r.
    change (1 + String.length p) with (String.length (String c p)).
    by rewrite str_substring_all.
  - destruct (String.length p) as [|n] eqn:Hn; [done|].
    cbn [render_runs]. rewrite <- Hn. cbn [String.length].
    destruct (Nat.ltb_spec (1 + String.length p) (S (String.length p)));
      [lia|done].
Qed.

Lemma render_loop_plain_lines ps qs st :
  qs ⊆ ps →
  Forall (plain_line ps) (html_lines st) →
  Forall (plain_line ps) (html_lines (render_loop set_iter ∅ qs st)).
Proof.
  revert st. induction qs as [|q qs IH]; intros st Hsub Hst; [done|].
  unfold render_loop in *. cbn [fold_left]. apply IH.
  - intros x Hx. apply Hsub. by right.
  - assert (q ∈ ps) as Hin by (apply Hsub; by left).
    unfold paragraph_step. destruct q as [|c q].
    + destruct (last_empty st); cbn [html_lines]; [done|].
      rewrite Forall_app, Forall_singleton. split; [done|].
      by right; right; left.
    + cbn [html_lines]. rewrite render_runs_no_tags by done.
      rewrite !Forall_app, !Forall_singleton. repeat split; [done|..].
      * by left.
      * do 3 right. exists (String c q). split; [done|].
        apply escape_text_charwise.
      * by right; left.
Qed.

(** C4: the text of the content reaches the output only through the
    escaping.  The rendered content is the lines of the loop joined by
    newlines, and every line is one of the three fixed lines or holds
    the entities of a slice of a paragraph of the content, bare or in a
    span whose style the tags alone determine; without tags every line
    that carries text is the entities of a whole paragraph, and a
    paragraph gives the single line of its escaped text.  The text is
    escaped first and its spaces are replaced afterwards; the result,
    character by character, has an entity for each of the ampersand, the
    angle brackets, the quotes and the space, so it holds no angle
    bracket and no ampersand other than the first character of an
    entity. *)
Theorem text_is_escaped content tags cur paragraph segment :
  let paragraphs := PyStr.split PyStr.newline content in
  let lines := html_lines (render_loop set_iter tags paragraphs loop_init) in
  let plain_lines := html_lines (render_loop set_iter ∅ paragraphs loop_init) in
  render set_iter content tags = PyStr.join nl lines
  ∧ (∀ subject is_html font_family font_size,
       get_html_content set_iter
         (update_template subject content is_html tags font_family font_size)
       = PyStr.join nl lines)
  ∧ Forall (line_ok set_iter tags paragraphs) lines
  ∧ render set_iter content ∅ = PyStr.join nl plain_lines
  ∧ Forall (plain_line paragraphs) plain_lines
  ∧ (paragraph ≠ "" →
     render_runs set_iter (String.length paragraph) ∅ cur paragraph 0
     = [escape_text paragraph])
  ∧ escape_text segment
    = PyStr.replace " " "&nbsp;" (PyStr.html_escape segment)
  ∧ escape_text segment = escape_chars segment
  ∧ well_escaped (escape_text segment) = true
  ∧ has_char "<" (escape_text segment) = false
  ∧ has_char ">" (escape_text segment) = false
  ∧ escape_text "a <b> & c" = "a&nbsp;&lt;b&gt;&nbsp;&amp;&nbsp;c"
  ∧ render set_iter "a <b> & c" ∅
    = PyStr.join nl ["<p>"; "a&nbsp;&lt;b&gt;&nbsp;&amp;&nbsp;c"; "</p>"].
Proof.
  cbn zeta.
  split; [done|]. split; [done|].
  split; [by apply render_loop_lines|].
  split; [done|].
  split; [by apply render_loop_plain_lines|].
  split; [apply render_runs_no_tags|].
  split; [done|]. split; [apply escape_text_charwise|].
  assert (well_escaped (escape_text segment) = true) as Hwell.
  { rewrite escape_text_charwise. apply well_escaped_escape_chars. }
  split; [done|].
  destruct (well_escaped_no_bracket _ Hwell) as [-> ->].
  by repeat split.
Qed.

End RendererFacts.

Lemma blank_lines_collapse_witness :
  render_loop iter_insertion ∅
    (PyStr.split PyStr.newline ("Hello" +:+ nl +:+ nl +:+ nl +:+ "World"))
    loop_init
  = render_loop iter_insertion ∅ (PyStr.split PyStr.newline "World")
      {| html_lines := ["<p>"; "Hello"; "</p>"; "<p>&nbsp;</p>"];
         current_pos := 8; last_empty := true |}.
Proof.
  destruct (blank_lines_collapse iter_insertion ∅ [] 0 1 "Hell" "World"
              false "o" "") as (_ & _ & _ & _ & _ & _ & _ & _ & H & _).
  exact (proj2 (H eq_refl)).
Defined.

Lemma sel_never_rendered_witness :
  render iter_insertion "Hello World" (tag_range 0 5 ["sel"; "bold"])
  = render iter_insertion "Hello World"
      (<["7" := ["sel"]]> (tag_range 0 5 ["bold"; "sel"])).
Proof.
  apply (proj1 (sel_never_rendered iter_insertion "Hello World"
                  (tag_range 0 5 ["sel"; "bold"])
                  (<["7" := ["sel"]]> (tag_range 0 5 ["bold"; "sel"])))).
  by vm_compute.
Defined.

(** C3, as stated, fails for the style attribute: the runs are told
    apart by their tag sets, and two tag sets that differ only in tags
    without a declaration (here the font tags that the editor panel
    makes) give two adjacent spans with the same, empty, style. *)
Lemma adjacent_spans_same_style_counterexample :
  render iter_insertion "ab"
    (<["0" := ["font_Arial_12"]]> (<["1" := ["font_Arial_14"]]> ∅))
  = PyStr.join nl ["<p>"; span "" "a"; span "" "b"; "</p>"].
Proof. by vm_compute. Qed.

Lemma runs_are_maximal_witness :
  render iter_insertion "Hello World" (tag_range 0 5 ["bold"])
  = PyStr.join nl
      ["<p>"; span "font-weight: bold" "Hello"; "&nbsp;World"; "</p>"].
Proof.
  apply (runs_are_maximal iter_insertion ∅ 0 "").
  intros l. reflexivity.
Defined.

(** Both orders are orders in which a set may be iterated. *)
Lemma iter_insertion_perm l : iter_insertion l ≡ₚ remove_dups l.
Proof. done. Qed.

Lemma iter_reversed_perm l : iter_reversed l ≡ₚ remove_dups l.
Proof. unfold iter_reversed. by rewrite reverse_Permutation. Qed.

(** C2: on the content [Hello World] with the offsets 0 to 4 tagged
    [font-family:Arial] and [font-size:14], an iteration of the tag set
    that yields the size first renders the size declaration before the
    family declaration; the iteration in insertion order renders the
    span that the specification and the test of the repository expect. *)
Theorem font_order_follows_iteration :
  (∀ l, iter_reversed l ≡ₚ remove_dups l)
  ∧ render iter_reversed "Hello World"
      (tag_range 0 5 ["font-family:Arial"; "font-size:14"])
    = PyStr.join nl
        ["<p>"; span "font-size: 14pt; font-family: 'Arial'" "Hello";
         "&nbsp;World"; "</p>"]
  ∧ contains (span "font-family: 'Arial'; font-size: 14pt" "Hello")
      (render iter_reversed "Hello World"
         (tag_range 0 5 ["font-family:Arial"; "font-size:14"])) = false
  ∧ render iter_insertion "Hello World"
      (tag_range 0 5 ["font-family:Arial"; "font-size:14"])
    = PyStr.join nl
        ["<p>"; span "font-family: 'Arial'; font-size: 14pt" "Hello";
         "&nbsp;World"; "</p>"].
Proof.
  split; [apply iter_reversed_perm|]. by vm_compute.
Qed.

Lemma text_is_escaped_witness :
  render_runs iter_insertion 9 ∅ 0 "a <b> & c" 0
  = [escape_text "a <b> & c"].
Proof.
  apply (proj1 (proj2 (proj2 (proj2 (proj2 (proj2
    (text_is_escaped iter_insertion "" ∅ 0 "a <b> & c" ""))))))).
  discriminate.
Defined.

(** * Further properties of the template service *)

(** ** Substitution *)

Lemma prefix_placeholder_no_brace key s :
  has_char PyStr.lbrace s = false →
  String.prefix (placeholder key) s = false.
Proof.
  intros Hs. destruct (String.prefix (placeholder key) s) eqn:Hp; [|done].
  apply str_prefix_app in Hp as [r ->]. rewrite placeholder_app in Hs.
  simpl in Hs. done.
Qed.

Lemma replace_go_no_brace key value s :
  has_char PyStr.lbrace s = false →
  PyStr.replace_go (placeholder key) value 0 s = s.
Proof.
  induction s as [|c s IH]; intros Hs; [done|].
  rewrite replace_go_miss by by apply prefix_placeholder_no_brace.
  simpl in Hs. apply orb_false_elim in Hs as [_ Hs]. by rewrite IH.
Qed.

Lemma replace_go_skip_plain key value pre rest :
  has_char PyStr.lbrace pre = false →
  PyStr.replace_go (placeholder key) value 0 (pre +:+ rest)
  = pre +:+ PyStr.replace_go (placeholder key) value 0 rest.
Proof.
  induction pre as [|c pre IH]; intros Hpre; [done|].
  simpl in Hpre. apply orb_false_elim in Hpre as [Hc Hpre].
  rewrite !str_app_cons, replace_go_miss, IH; [done..|].
  cbn [String.prefix placeholder]. rewrite placeholder_unfold.
  destruct (ascii_dec PyStr.lbrace c) as [<-|]; [|done].
  by rewrite Ascii.eqb_refl in Hc.
Qed.

(** A template without an opening brace has no placeholder, and every
    mapping leaves it as it is. *)
Theorem replace_variables_no_brace template variables :
  has_char PyStr.lbrace template = false →
  replace_variables template variables = template.
Proof.
  intros Ht. induction variables as [|[key value] variables IH]; [done|].
  cbn [replace_variables].
  rewrite replace_nonempty by apply placeholder_nonempty.
  by rewrite replace_go_no_brace.
Qed.

Lemma replace_variables_no_brace_witness :
  replace_variables "Dear customer" [("name", "Ann"); ("code", "42")]
  = "Dear customer".
Proof. by apply replace_variables_no_brace. Defined.

(** A placeholder between two texts without an opening brace is
    replaced by the value of its key, whatever the key and the value
    are, and the two texts stay. *)
Lemma replace_placeholder_between pre key value post :
  has_char PyStr.lbrace pre = false →
  has_char PyStr.lbrace post = false →
  PyStr.replace (placeholder key) value (pre +:+ placeholder key +:+ post)
  = pre +:+ value +:+ post.
Proof.
  intros Hpre Hpost.
  rewrite replace_nonempty by apply placeholder_nonempty.
  rewrite replace_go_skip_plain by done.
  rewrite replace_go_hit by apply placeholder_nonempty.
  by rewrite replace_go_no_brace.
Qed.

Theorem replace_variables_single pre key value post :
  has_char PyStr.lbrace pre = false →
  has_char PyStr.lbrace post = false →
  replace_variables (pre +:+ placeholder key +:+ post) [(key, value)]
  = pre +:+ value +:+ post.
Proof.
  intros Hpre Hpost. cbn [replace_variables].
  by apply replace_placeholder_between.
Qed.

Lemma replace_variables_single_witness :
  replace_variables "Hi {first name}!" [("first name", "{Ann}")]
  = "Hi {Ann}!".
Proof. by apply (replace_variables_single "Hi " "first name" "{Ann}" "!"). Defined.

(** ** Extraction and validation *)

Lemma braced_substring_has_braces text inner :
  braced_substring text inner →
  has_char PyStr.lbrace text = true ∧ has_char PyStr.rbrace text = true.
Proof.
  intros (_ & _ & pre & post & ->).
  rewrite placeholder_app, !has_char_app. simpl.
  rewrite !has_char_app. simpl. rewrite !orb_true_r. done.
Qed.

(** A text in which no opening brace, or no closing brace, occurs has
    no parameter: an unmatched brace is not an error and yields
    nothing. *)
Theorem extraction_needs_both_braces text :
  has_char PyStr.lbrace text = false ∨ has_char PyStr.rbrace text = false →
  validate_template_params text = ∅.
Proof.
  intros Hno. unfold validate_template_params.
  destruct (findall text) as [|inner rest] eqn:Hf; [done|].
  assert (inner ∈ findall text) as Hin by (rewrite Hf; left).
  apply findall_sound, braced_substring_has_braces in Hin as [H1 H2].
  destruct Hno as [Hno|Hno]; congruence.
Qed.

Lemma extraction_needs_both_braces_witness :
  validate_template_params "Hello {name, your code is {code" = ∅.
Proof. apply extraction_needs_both_braces. by right. Defined.

Lemma validate_template_passes_mono subject content (A B : gset string) :
  A ⊆ B →
  (validate_template subject content A).1 = true →
  (validate_template subject content B).1 = true.
Proof.
  intros HAB. unfold validate_template. cbn [fst].
  rewrite !Nat.eqb_eq, !size_empty_iff. intros Hempty x.
  split; [|by intros ?%not_elem_of_empty].
  intros [Hx Hnot]%elem_of_difference. apply (Hempty x).
  apply elem_of_difference. split; [done|]. intros HA. by apply Hnot, HAB.
Qed.

(** Validation is monotone in the available parameters: more of them
    leave fewer undefined, and a template that passes keeps passing; so
    a template that is valid for the merged parameters stays valid when
    custom parameters are added. *)
Theorem validate_template_mono subject content (A B : gset string) :
  A ⊆ B →
  (validate_template subject content B).2
    ⊆ (validate_template subject content A).2
  ∧ ((validate_template subject content A).1 = true →
     (validate_template subject content B).1 = true)
  ∧ (∀ custom more,
       (validate_template subject content
          (ParameterService.merge_params custom)).1 = true →
       (validate_template subject content
          (ParameterService.merge_params (custom ++ more))).1 = true).
Proof.
  intros HAB. split; [|split].
  - unfold validate_template. cbn [snd]. intros x.
    rewrite !elem_of_difference. intros [Hx Hnot]. split; [done|].
    intros HA. by apply Hnot, HAB.
  - by apply validate_template_passes_mono.
  - intros custom more. apply validate_template_passes_mono.
    unfold ParameterService.merge_params. intros x.
    rewrite !elem_of_union, !elem_of_list_to_set, elem_of_app. tauto.
Qed.

Lemma validate_template_mono_witness :
  (validate_template "Hi {name}" "code {code}" {["name"; "code"; "email"]}).1
  = true.
Proof.
  apply (validate_template_mono "Hi {name}" "code {code}"
           {["name"; "code"]} {["name"; "code"; "email"]}).
  - intros x. rewrite !elem_of_union. tauto.
  - by vm_compute.
Defined.

(** ** The renderer: shape of the output *)

Section RendererShape.

Variable set_iter : list string → list string.

Lemma render_run_not_markup current_tags segment :
  render_run set_iter current_tags segment ≠ "<p>"
  ∧ render_run set_iter current_tags segment ≠ "</p>".
Proof.
  assert (has_char "<" (escape_text segment) = false) as Hno.
  { apply well_escaped_no_bracket. rewrite escape_text_charwise.
    apply well_escaped_escape_chars. }
  unfold render_run. destruct current_tags as [|t ts].
  - split; intros H; by rewrite H in Hno.
  - split; intros H; rewrite !str_app_cons in H; discriminate H.
Qed.

Lemma render_runs_no_markup fuel tags cur paragraph pos :
  filter (λ l, l = "<p>") (render_runs set_iter fuel tags cur paragraph pos) = []
  ∧ filter (λ l, l = "</p>") (render_runs set_iter fuel tags cur paragraph pos)
    = [].
Proof.
  revert pos. induction fuel as [|fuel IH]; intros pos; [done|].
  cbn [render_runs]. destruct (pos <? String.length paragraph); [|done].
  destruct (render_run_not_markup
              (tags_at tags (cur + pos))
              (PyStr.slice pos
                 (run_end tags cur (tags_at tags (cur + pos))
                    (PyStr.drop (S pos) paragraph) (S pos)) paragraph))
    as [H1 H2].
  rewrite !filter_cons. destruct (decide _); [done|].
  destruct (decide _); [done|]. apply IH.
Qed.

(** Every paragraph that is not empty gives one opening and one closing
    line, and nothing else gives one: the text lines never are markup
    lines. *)
Theorem paragraphs_balanced tags content :
  let paragraphs := PyStr.split PyStr.newline content in
  let lines := html_lines (render_loop set_iter tags paragraphs loop_init) in
  length (filter (λ l, l = "<p>") lines)
  = length (filter (λ p, p ≠ "") paragraphs)
  ∧ length (filter (λ l, l = "</p>") lines)
    = length (filter (λ p, p ≠ "") paragraphs).
Proof.
  cbn zeta.
  assert (∀ ps st,
    length (filter (λ l, l = "<p>") (html_lines (render_loop set_iter tags ps st)))
    = length (filter (λ l, l = "<p>") (html_lines st))
      + length (filter (λ p, p ≠ "") ps)
    ∧ length (filter (λ l, l = "</p>")
                (html_lines (render_loop set_iter tags ps st)))
      = length (filter (λ l, l = "</p>") (html_lines st))
        + length (filter (λ p, p ≠ "") ps)) as Hgen.
  { induction ps as [|p ps IH]; intros st; [simpl; lia|].
    unfold render_loop in *. cbn [fold_left].
    destruct (IH (paragraph_step set_iter tags st p)) as [-> ->].
    destruct p as [|c p].
    - rewrite filter_cons_False by (by intros ?).
      cbn [paragraph_step]. destruct (last_empty st); cbn [html_lines].
      + done.
      + rewrite !filter_app, !length_app. simpl. lia.
    - rewrite filter_cons_True by done.
      cbn [paragraph_step html_lines].
      destruct (render_runs_no_markup (String.length (String c p)) tags
                  (current_pos st) (String c p) 0) as [H1 H2].
      rewrite !filter_app, H1, H2, !length_app. simpl. lia. }
  destruct (Hgen (PyStr.split PyStr.newline content) loop_init) as [-> ->].
  done.
Qed.

Lemma split_no_sep sep s :
  has_char sep s = false → PyStr.split sep s = [s].
Proof.
  induction s as [|c s IH]; intros Hs; [done|].
  simpl in *. apply orb_false_elim in Hs as [-> Hs]. by rewrite IH.
Qed.

(** Joining writes the first element first and the last element last. *)
Lemma join_cons sep x y l :
  PyStr.join sep (x :: y :: l) = x +:+ sep +:+ PyStr.join sep (y :: l).
Proof. reflexivity. Qed.

Lemma join_singleton sep x : PyStr.join sep [x] = x.
Proof. reflexivity. Qed.

Lemma join_head sep x l : ∃ rest, PyStr.join sep (x :: l) = x +:+ rest.
Proof.
  destruct l as [|y l]; [|by eexists; apply join_cons].
  exists "". by rewrite str_app_nil_r.
Qed.

Lemma join_last sep l y :
  last l = Some y → ∃ pre, PyStr.join sep l = pre +:+ y.
Proof.
  induction l as [|x l IH]; [done|]. destruct l as [|x' l].
  - intros [= ->]. by exists "".
  - intros Hlast. destruct (IH Hlast) as [pre Hpre].
    exists (x +:+ sep +:+ pre). by rewrite join_cons, Hpre, !str_app_assoc.
Qed.

Lemma join_nonempty sep x l : x ≠ "" → PyStr.join sep (x :: l) ≠ "".
Proof.
  intros Hx. destruct (join_head sep x l) as [rest ->].
  by destruct x.
Qed.

(** Splitting a joined list gives back a first element and a last
    element that hold no separator. *)
Lemma split_join_head sep x l :
  has_char sep x = false →
  head (PyStr.split sep (PyStr.join (PyStr.str1 sep) (x :: l))) = Some x.
Proof.
  intros Hx. destruct l as [|y l].
  - by rewrite join_singleton, (split_no_sep _ _ Hx).
  - rewrite join_cons. change (PyStr.str1 sep +:+ ?t) with (String sep t).
    by rewrite split_app, (split_no_sep _ _ Hx).
Qed.

Lemma split_join_last sep l y :
  has_char sep y = false → last l = Some y →
  last (PyStr.split sep (PyStr.join (PyStr.str1 sep) l)) = Some y.
Proof.
  intros Hy. induction l as [|x l IH]; [done|]. destruct l as [|x' l].
  - intros [= ->]. by rewrite join_singleton, (split_no_sep _ _ Hy).
  - intros Hlast. rewrite join_cons.
    change (PyStr.str1 sep +:+ ?t) with (String sep t).
    by rewrite split_app, last_app, (IH Hlast).
Qed.

(** The output is never empty: its first line opens a paragraph, and
    its last line closes one.  This holds of the lines that the loop
    collects and of the text that [get_html_content] returns: the text
    starts with the opening of a paragraph and ends with the closing of
    one, and read line by line its first line is the opening line or
    the placeholder paragraph, and its last line the closing line or
    the placeholder paragraph. *)
Theorem render_lines_shape tags content :
  let lines :=
    html_lines
      (render_loop set_iter tags (PyStr.split PyStr.newline content) loop_init) in
  let output :=
    get_html_content set_iter
      (update_template "" content true tags "Times New Roman" "12") in
  let output_lines := PyStr.split PyStr.newline output in
  ((∃ rest, lines = "<p>" :: rest ∨ lines = "<p>&nbsp;</p>" :: rest)
   ∧ (last lines = Some "</p>" ∨ last lines = Some "<p>&nbsp;</p>"))
  ∧ output = render set_iter content tags
  ∧ output ≠ ""
  ∧ (∃ rest, output = "<p>" +:+ rest)
  ∧ (∃ pre, output = pre +:+ "</p>")
  ∧ (head output_lines = Some "<p>" ∨ head output_lines = Some "<p>&nbsp;</p>")
  ∧ (last output_lines = Some "</p>"
     ∨ last output_lines = Some "<p>&nbsp;</p>").
Proof.
  cbn zeta.
  set (good := λ lines : list string,
    (∃ rest, lines = "<p>" :: rest ∨ lines = "<p>&nbsp;</p>" :: rest)
    ∧ (last lines = Some "</p>" ∨ last lines = Some "<p>&nbsp;</p>")).
  assert (Hstep : ∀ st p,
    good (html_lines st) ∨ (html_lines st = [] ∧ last_empty st = false) →
    good (html_lines (paragraph_step set_iter tags st p))).
  { intros st p Hst. destruct p as [|c p]; cbn [paragraph_step].
    - destruct Hst as [Hgood|[Hnil Hle]].
      + destruct (last_empty st); cbn [html_lines]; [done|].
        destruct Hgood as [[rest Hrest] _]. split.
        * destruct Hrest as [-> | ->]; eexists; [left|right]; reflexivity.
        * right. apply last_snoc.
      + rewrite Hle, Hnil. cbn [html_lines]. split; [|by right].
        exists []. by right.
    - cbn [html_lines]. split.
      + destruct Hst as [[[rest Hrest] _]|[-> _]].
        * destruct Hrest as [-> | ->]; eexists; [left|right]; reflexivity.
        * eexists. left. reflexivity.
      + left. rewrite (assoc_L (++)). apply last_snoc. }
  assert (Hloop : ∀ ps st,
    good (html_lines st) → good (html_lines (render_loop set_iter tags ps st))).
  { induction ps as [|p ps IH]; intros st Hst; [done|].
    unfold render_loop in *. cbn [fold_left]. apply IH, Hstep. by left. }
  assert (good (html_lines
                  (render_loop set_iter tags
                     (PyStr.split PyStr.newline content) loop_init)))
    as Hgood.
  { destruct (PyStr.split PyStr.newline content) as [|p ps] eqn:Hps.
    { by apply split_nonempty in Hps. }
    unfold render_loop. cbn [fold_left]. apply Hloop, Hstep. by right. }
  split; [done|]. split; [done|].
  unfold get_html_content, update_template, render.
  cbn [_content _tags].
  destruct Hgood as [[rest Hfirst] Hlast].
  set (lines := html_lines
                  (render_loop set_iter tags
                     (PyStr.split PyStr.newline content) loop_init)) in *.
  split; [|split; [|split; [|split]]].
  - destruct Hfirst as [-> | ->]; by apply join_nonempty.
  - destruct Hfirst as [-> | ->].
    + apply join_head.
    + destruct (join_head (PyStr.str1 PyStr.newline) "<p>&nbsp;</p>" rest)
        as [rest' ->].
      by exists ("&nbsp;</p>" +:+ rest').
  - destruct Hlast as [Hlast|Hlast];
      destruct (join_last (PyStr.str1 PyStr.newline) _ _ Hlast) as [pre ->].
    + by exists pre.
    + exists (pre +:+ "<p>&nbsp;"). by rewrite str_app_assoc.
  - destruct Hfirst as [-> | ->]; [left|right]; by apply split_join_head.
  - destruct Hlast as [Hlast|Hlast]; [left|right];
      by apply split_join_last.
Qed.

Lemma paragraphs_extent_cons p ps :
  paragraphs_extent (p :: ps) = String.length p + 1 + paragraphs_extent ps.
Proof. reflexivity. Qed.

Lemma split_extent sep s :
  paragraphs_extent (PyStr.split sep s) = String.length s + 1.
Proof.
  induction s as [|c s IH]; [done|]. cbn [PyStr.split].
  destruct (Ascii.eqb c sep).
  - rewrite paragraphs_extent_cons, IH. simpl. lia.
  - destruct (PyStr.split sep s) as [|h t] eqn:Hs.
    + by apply split_nonempty in Hs.
    + rewrite paragraphs_extent_cons in *. simpl. lia.
Qed.

Lemma render_loop_current_pos tags ps st :
  current_pos (render_loop set_iter tags ps st)
  = current_pos st + paragraphs_extent ps.
Proof.
  revert st. induction ps as [|p ps IH]; intros st.
  - simpl. lia.
  - unfold render_loop in *. cbn [fold_left].
    rewrite IH, paragraphs_extent_cons.
    destruct p as [|c p]; cbn [paragraph_step].
    + destruct (last_empty st); cbn [current_pos String.length]; lia.
    + cbn [current_pos]. lia.
Qed.

(** [current_pos] is the offset in the content: after the paragraphs of
    [a] and the newline that follows, the paragraphs of [b] are read
    with the offsets that their characters have in the whole content. *)
Theorem current_pos_is_offset tags a b :
  render_loop set_iter tags
    (PyStr.split PyStr.newline (a +:+ String PyStr.newline b)) loop_init
  = render_loop set_iter tags (PyStr.split PyStr.newline b)
      (render_loop set_iter tags (PyStr.split PyStr.newline a) loop_init)
  ∧ current_pos
      (render_loop set_iter tags (PyStr.split PyStr.newline a) loop_init)
    = String.length a + 1
  ∧ current_pos
      (render_loop set_iter tags
         (PyStr.split PyStr.newline (a +:+ String PyStr.newline b)) loop_init)
    = String.length (a +:+ String PyStr.newline b) + 1.
Proof.
  split; [|split].
  - by rewrite split_app, render_loop_app.
  - rewrite render_loop_current_pos, split_extent. simpl. lia.
  - rewrite render_loop_current_pos, split_extent. simpl. lia.
Qed.

Lemma render_single_paragraph content :
  content ≠ "" → has_char PyStr.newline content = false →
  render set_iter content ∅
  = PyStr.join nl ["<p>"; escape_text content; "</p>"].
Proof.
  intros Hne Hnl. unfold render. rewrite split_no_sep by done.
  unfold render_loop. cbn [fold_left]. destruct content as [|c content]; [done|].
  cbn [paragraph_step html_lines loop_init current_pos].
  by rewrite render_runs_no_tags.
Qed.

(** A content of one line without tags renders as one paragraph that
    holds its escaped text. *)
Theorem render_plain_line content :
  content ≠ "" → has_char PyStr.newline content = false →
  render set_iter content ∅
  = PyStr.join nl ["<p>"; escape_text content; "</p>"].
Proof. apply render_single_paragraph. Qed.

End RendererShape.

Lemma render_plain_line_witness :
  render iter_insertion "Hello World" ∅
  = PyStr.join nl ["<p>"; escape_text "Hello World"; "</p>"].
Proof. by apply render_plain_line. Defined.

(** ** The renderer: escaping loses nothing *)

Ltac case_escape c :=
  unfold esc_char;
  destruct (Ascii.eqb_spec c "&") as [->|?]; [|
  destruct (Ascii.eqb_spec c "<") as [->|?]; [|
  destruct (Ascii.eqb_spec c ">") as [->|?]; [|
  destruct (Ascii.eqb_spec c PyStr.dquote) as [->|?]; [|
  destruct (Ascii.eqb_spec c PyStr.squote) as [->|?]; [|
  destruct (Ascii.eqb_spec c PyStr.space) as [->|?]]]]]].

Lemma esc_char_cancel c d t1 t2 :
  esc_char c +:+ t1 = esc_char d +:+ t2 → c = d ∧ t1 = t2.
Proof.
  case_escape c; case_escape d; intros H; vm_compute in H;
    first [discriminate H | split; congruence].
Qed.

Lemma esc_char_nonempty c t : esc_char c +:+ t ≠ "".
Proof. case_escape c; intros H; vm_compute in H; discriminate H. Qed.

Lemma escape_chars_inj s1 s2 : escape_chars s1 = escape_chars s2 → s1 = s2.
Proof.
  revert s2. induction s1 as [|c s1 IH]; intros [|d s2] H; cbn [escape_chars] in H.
  - done.
  - symmetry in H. by apply esc_char_nonempty in H.
  - by apply esc_char_nonempty in H.
  - apply esc_char_cancel in H as [-> H]. f_equal. by apply IH.
Qed.

(** Two segments with the same escaped text are the same segment. *)
Theorem escape_text_injective s1 s2 :
  escape_text s1 = escape_text s2 → s1 = s2.
Proof. rewrite !escape_text_charwise. apply escape_chars_inj. Qed.

Lemma escape_text_injective_witness : "a <b>" = "a <b>".
Proof. by apply escape_text_injective. Defined.

Lemma esc_char_plain c : needs_escape c = false → esc_char c = PyStr.str1 c.
Proof.
  unfold needs_escape, esc_char. intros H.
  repeat (apply orb_false_elim in H as [H ?]).
  by repeat match goal with Hc : Ascii.eqb _ _ = false |- _ => rewrite Hc; clear Hc end.
Qed.

(** A text without ampersand, angle bracket, quote and space is its own
    escaped text. *)
Theorem escape_text_plain s :
  all_chars (λ c, negb (needs_escape c)) s = true → escape_text s = s.
Proof.
  rewrite escape_text_charwise.
  induction s as [|c s IH]; intros H; [done|].
  cbn [all_chars] in H. apply andb_true_iff in H as [Hc H].
  apply negb_true_iff in Hc.
  cbn [escape_chars]. by rewrite esc_char_plain, IH.
Qed.

Lemma escape_text_plain_witness : escape_text "{name}_1" = "{name}_1".
Proof. by apply escape_text_plain. Defined.

(** ** The renderer: styles *)

(** A tag that starts with one of the two font prefixes always splits
    in two at its first colon, so it always gives its declaration, with
    the value stripped of the white space around it. *)
Theorem font_style_value v :
  font_style ("font-family:" +:+ v)
  = ["font-family: '" +:+ PyStr.strip v +:+ "'"]
  ∧ font_style ("font-size:" +:+ v)
    = ["font-size: " +:+ PyStr.strip v +:+ "pt"].
Proof.
  unfold font_style, PyStr.startswith. split.
  - rewrite str_prefix_refl_app. by rewrite !str_app_cons.
  - destruct (String.prefix "font-family:" ("font-size:" +:+ v)) eqn:Hp.
    { apply str_prefix_app in Hp as [r Hr]. rewrite !str_app_cons in Hr.
      discriminate Hr. }
    rewrite str_prefix_refl_app. by rewrite !str_app_cons.
Qed.

Section RendererOrder.

Variables set_iter set_iter' : list string → list string.

Lemma render_runs_styles_ext tags fuel cur paragraph pos :
  (∀ i, build_styles set_iter (tags_at tags i)
        = build_styles set_iter' (tags_at tags i)) →
  render_runs set_iter fuel tags cur paragraph pos
  = render_runs set_iter' fuel tags cur paragraph pos.
Proof.
  intros Hext. revert pos. induction fuel as [|fuel IH]; intros pos; [done|].
  cbn [render_runs]. destruct (pos <? String.length paragraph); [|done].
  rewrite IH. f_equal. unfold render_run. by rewrite Hext.
Qed.

Lemma render_styles_ext tags content :
  (∀ i, build_styles set_iter (tags_at tags i)
        = build_styles set_iter' (tags_at tags i)) →
  render set_iter content tags = render set_iter' content tags.
Proof.
  intros Hext. unfold render, render_loop. f_equal. f_equal.
  generalize loop_init.
  induction (PyStr.split PyStr.newline content) as [|p ps IH]; intros st; [done|].
  cbn [fold_left]. rewrite IH. f_equal.
  destruct p as [|c p]; [done|]. unfold paragraph_step.
  by rewrite (render_runs_styles_ext tags).
Qed.

Lemma flat_map_font_style_nil l :
  Forall (λ t, font_style t = []) l → flat_map font_style l = [].
Proof. induction 1 as [|t l Ht _ IH]; [done|]. simpl. by rewrite Ht, IH. Qed.

(** Where no tag is a font tag (the tags [bold], [italic], [underline],
    the selection marker and the font tags that the editor panel makes
    are not), the output does not depend on the order in which the tag
    sets are iterated. *)
Theorem render_order_free (tags : tag_map) content :
  (∀ l, set_iter l ≡ₚ remove_dups l) →
  (∀ l, set_iter' l ≡ₚ remove_dups l) →
  map_Forall (λ _ l, Forall (λ t, font_style t = []) l) tags →
  render set_iter content tags = render set_iter' content tags.
Proof.
  intros Hiter Hiter' Htags. apply render_styles_ext. intros i.
  assert (Forall (λ t, font_style t = []) (tags_at tags i)) as Hi.
  { unfold tags_at. destruct (tags !! pretty i) as [l|] eqn:Hl; [|done].
    simpl. apply Forall_forall. intros t [_ Ht]%list_elem_of_filter.
    revert t Ht. apply Forall_forall. by apply (Htags _ _ Hl). }
  unfold build_styles. do 3 f_equal.
  rewrite !flat_map_font_style_nil; [done|..].
  - apply Forall_forall. intros t Ht. rewrite Hiter', elem_of_remove_dups in Ht.
    revert t Ht. by apply Forall_forall.
  - apply Forall_forall. intros t Ht. rewrite Hiter, elem_of_remove_dups in Ht.
    revert t Ht. by apply Forall_forall.
Qed.

End RendererOrder.

Lemma render_order_free_witness :
  render iter_insertion "Hello World"
    (tag_range 0 5 ["italic"; "sel"; "font_Arial_12"; "bold"])
  = render iter_reversed "Hello World"
      (tag_range 0 5 ["italic"; "sel"; "font_Arial_12"; "bold"]).
Proof.
  apply render_order_free.
  - intros l. reflexivity.
  - apply iter_reversed_perm.
  - by apply (bool_decide_unpack _).
Defined.

(** ** Rendering, then substitution (the HTML path of the sender and of
    the preview) *)

Lemma has_char_lbrace_esc_char c t :
  has_char PyStr.lbrace (esc_char c +:+ t)
  = Ascii.eqb c PyStr.lbrace || has_char PyStr.lbrace t.
Proof. case_escape c; try reflexivity. Qed.

Lemma has_char_lbrace_escape_text s :
  has_char PyStr.lbrace (escape_text s) = has_char PyStr.lbrace s.
Proof.
  rewrite escape_text_charwise. induction s as [|c s IH]; [done|].
  cbn [escape_chars has_char]. by rewrite has_char_lbrace_esc_char, IH.
Qed.

Lemma escape_text_placeholder key :
  escape_text key = key → escape_text (placeholder key) = placeholder key.
Proof.
  intros Hkey. unfold placeholder. rewrite !escape_text_app, Hkey.
  reflexivity.
Qed.

Section RenderThenSubstitute.

Variable set_iter : list string → list string.

(** On the HTML path the template is rendered first and the variables
    are substituted in the markup.  For a content of one line without
    format tags, made of a text [pre], the placeholder of [key] and a
    text [post], where [pre] and [post] hold no opening brace and [key]
    holds no character that the escaping rewrites: the placeholder
    survives the rendering, and its value is put in as it is, without
    being escaped, while [pre] and [post] are escaped. *)
Theorem html_value_inserted_raw pre key value post :
  has_char PyStr.newline (pre +:+ placeholder key +:+ post) = false →
  has_char PyStr.lbrace pre = false →
  has_char PyStr.lbrace post = false →
  escape_text key = key →
  replace_variables
    (render set_iter (pre +:+ placeholder key +:+ post) ∅) [(key, value)]
  = PyStr.join nl
      ["<p>"; escape_text pre +:+ value +:+ escape_text post; "</p>"].
Proof.
  intros Hnl Hpre Hpost Hkey.
  rewrite render_single_paragraph; [|by destruct pre|done].
  rewrite !escape_text_app, escape_text_placeholder by done.
  cbn [replace_variables].
  change (PyStr.join nl
            ["<p>"; escape_text pre +:+ placeholder key +:+ escape_text post;
             "</p>"])
    with ("<p>" +:+ nl
          +:+ (escape_text pre +:+ placeholder key +:+ escape_text post)
          +:+ nl +:+ "</p>").
  change (PyStr.join nl
            ["<p>"; escape_text pre +:+ value +:+ escape_text post; "</p>"])
    with ("<p>" +:+ nl +:+ (escape_text pre +:+ value +:+ escape_text post)
          +:+ nl +:+ "</p>").
  rewrite <- !str_app_assoc. rewrite !(str_app_assoc _ nl "</p>").
  rewrite (str_app_assoc _ (escape_text post)).
  rewrite (str_app_assoc _ (placeholder key)).
  rewrite replace_placeholder_between.
  - by rewrite <- !str_app_assoc.
  - rewrite !has_char_app, has_char_lbrace_escape_text, Hpre. reflexivity.
  - rewrite !has_char_app, has_char_lbrace_escape_text, Hpost. reflexivity.
Qed.

End RenderThenSubstitute.

Lemma html_value_inserted_raw_witness :
  replace_variables (render iter_insertion "Dear {name} & co" ∅)
    [("name", "<b>Ann</b>")]
  = PyStr.join nl ["<p>"; "Dear&nbsp;<b>Ann</b>&nbsp;&amp;&nbsp;co"; "</p>"].
Proof.
  by apply (html_value_inserted_raw iter_insertion "Dear " "name"
              "<b>Ann</b>" " & co").
Defined.

(** ** The check of the preview window *)

Section PreviewCheck.

Variable params_iter : gset string → list string.

(** The parameters that the preview reports for a recipient are the
    ones that [validate_template] leaves undefined when the keys of the
    recipient are the available parameters, each one once; none is
    reported exactly when that validation passes. *)
Theorem preview_check_agrees subject content
    (recipient : gmap string string) :
  (∀ X, params_iter X ≡ₚ elements X) →
  let missing :=
    PreviewWindow._validate_params params_iter subject content recipient in
  (∀ param, param ∈ missing ↔
            param ∈ (validate_template subject content (dom recipient)).2)
  ∧ NoDup missing
  ∧ (missing = [] ↔
     (validate_template subject content (dom recipient)).1 = true).
Proof.
  intros Hiter. cbn zeta. unfold PreviewWindow._validate_params.
  assert (Hin : ∀ param,
    param ∈ filter (λ param, recipient !! param = None)
              (params_iter (get_template_params subject content))
    ↔ param ∈ (validate_template subject content (dom recipient)).2).
  { intros param. unfold validate_template. cbn [snd].
    rewrite list_elem_of_filter, Hiter, elem_of_elements, elem_of_difference.
    rewrite not_elem_of_dom. tauto. }
  split; [done|]. split.
  - apply NoDup_filter. rewrite Hiter. apply NoDup_elements.
  - unfold validate_template in *. cbn [fst snd] in *.
    rewrite Nat.eqb_eq, size_empty_iff. split.
    + intros Hnil param. rewrite <- Hin, Hnil. split; [by intros ?%elem_of_nil|].
      by intros ?%not_elem_of_empty.
    + intros Hempty.
      destruct (filter _ _) as [|param rest] eqn:Hf; [done|].
      exfalso. apply (not_elem_of_empty (C:=gset string) param), Hempty, Hin.
      left.
Qed.

End PreviewCheck.

Lemma preview_check_agrees_witness :
  NoDup (PreviewWindow._validate_params elements "Hi {name}" "code {code}"
           {["name" := "Ann"; "email" := "ann@example.org"]}).
Proof.
  apply (preview_check_agrees elements "Hi {name}" "code {code}"
           {["name" := "Ann"; "email" := "ann@example.org"]}).
  intros X. reflexivity.
Defined.

(** * The parameter service *)

Lemma all_alnum_without_underscores s :
  PyStr.all_alnum (subst_char "_" "" s)
  = all_chars (λ c, Ascii.eqb c "_" || PyStr.isalnum_char c) s.
Proof.
  induction s as [|c s IH]; [done|]. cbn [subst_char all_chars].
  destruct (Ascii.eqb_spec c "_") as [->|Hc].
  - by rewrite str_app_nil_l, IH.
  - cbn [orb]. unfold PyStr.str1. rewrite str_app_cons, str_app_nil_l.
    cbn [PyStr.all_alnum]. by rewrite IH.
Qed.

Lemma only_underscores s :
  subst_char "_" "" s = "" ↔ all_chars (λ c, Ascii.eqb c "_") s = true.
Proof.
  induction s as [|c s IH]; [done|]. cbn [subst_char all_chars].
  destruct (Ascii.eqb c "_"); [by rewrite str_app_nil_l|].
  unfold PyStr.str1. rewrite str_app_cons. done.
Qed.

Lemma isalnum_all_alnum s :
  PyStr.isalnum s = PyStr.all_alnum s && negb (String.eqb s "").
Proof. destruct s; [done|]. simpl. by rewrite andb_true_r. Qed.

Lemma all_chars_has_char p x s :
  all_chars p s = true → p x = false → has_char x s = false.
Proof.
  intros Hs Hx. induction s as [|c s IH]; [done|].
  cbn [all_chars has_char] in *. apply andb_true_iff in Hs as [Hc Hs].
  rewrite IH by done. destruct (Ascii.eqb_spec c x) as [->|]; [|done].
  congruence.
Qed.

Lemma identifier_accepted_iff identifier existing_ids :
  (ParameterService.validate_param_identifier identifier existing_ids).1 = true
  ↔ (PyStr.lower identifier ∉ (set_map PyStr.lower existing_ids : gset string))
    ∧ all_chars (λ c, Ascii.eqb c "_" || PyStr.isalnum_char c) identifier = true
    ∧ all_chars (λ c, Ascii.eqb c "_") identifier = false.
Proof.
  unfold ParameterService.validate_param_identifier.
  destruct identifier as [|a identifier].
  { cbn [fst]. split; [done|]. by intros (_ & _ & ?). }
  set (id := String a identifier).
  rewrite replace_char, isalnum_all_alnum, all_alnum_without_underscores.
  case_bool_decide as Hdup; cbn [fst].
  { split; [done|]. by intros (? & _). }
  destruct (all_chars _ id) eqn:Hall; cbn [andb negb fst].
  2:{ split; [done|]. by intros (_ & ? & _). }
  destruct (String.eqb_spec (subst_char "_" "" id) "") as [Hempty|Hsome];
    cbn [negb fst].
  - apply only_underscores in Hempty. split; [done|]. intros (_ & _ & ?).
    congruence.
  - split; [|done]. intros _. split; [done|]. split; [done|].
    destruct (all_chars (λ c, Ascii.eqb c "_") id) eqn:Hu; [|done].
    by apply only_underscores in Hu.
Qed.

Lemma identifier_accepted_brace_free identifier existing_ids :
  (ParameterService.validate_param_identifier identifier existing_ids).1 = true
  → brace_free identifier.
Proof.
  intros (_ & Hall & _)%identifier_accepted_iff.
  split; by apply (all_chars_has_char _ _ _ Hall).
Qed.

(** An identifier is accepted exactly when it differs, ignoring case,
    from the existing ones, is made of letters, digits and underscores,
    and has a character that is not an underscore.  So an accepted
    identifier is not empty and holds no brace. *)
Theorem identifier_accepted identifier existing_ids :
  ((ParameterService.validate_param_identifier identifier existing_ids).1 = true
   ↔ (PyStr.lower identifier ∉ (set_map PyStr.lower existing_ids : gset string))
     ∧ all_chars (λ c, Ascii.eqb c "_" || PyStr.isalnum_char c) identifier
       = true
     ∧ all_chars (λ c, Ascii.eqb c "_") identifier = false)
  ∧ ((ParameterService.validate_param_identifier identifier existing_ids).1
     = true → identifier ≠ "" ∧ brace_free identifier).
Proof.
  split; [apply identifier_accepted_iff|].
  intros H. split; [|by apply identifier_accepted_brace_free in H].
  by destruct identifier.
Qed.

Lemma identifier_accepted_witness :
  "order_id" ≠ "" ∧ brace_free "order_id".
Proof.
  apply (proj2 (identifier_accepted "order_id" {["Company"]})).
  by vm_compute.
Defined.

Lemma add_param_accepted display_name identifier params :
  (ParameterService.add_param display_name identifier params).1.1 = true →
  (ParameterService.validate_param_identifier identifier
     (list_to_set params.*2)).1 = true
  ∧ (ParameterService.add_param display_name identifier params).2
    = params ++ [(display_name, identifier)].
Proof.
  unfold ParameterService.add_param.
  destruct (ParameterService.validate_param_identifier _ _) as [[] msg];
    cbn [negb fst snd]; done.
Qed.

Lemma add_param_rejected display_name identifier params :
  (ParameterService.add_param display_name identifier params).1.1 = false →
  (ParameterService.add_param display_name identifier params).2 = params.
Proof.
  unfold ParameterService.add_param.
  destruct (ParameterService.validate_param_identifier _ _) as [[] msg];
    cbn [negb fst snd]; done.
Qed.

Lemma lower_not_in_set (identifier : string) (ids : list string) :
  PyStr.lower identifier
    ∉ (set_map PyStr.lower (list_to_set ids : gset string) : gset string)
  ↔ (PyStr.lower identifier ∉ (PyStr.lower <$> ids)).
Proof.
  rewrite elem_of_map, list_elem_of_fmap.
  split; intros H (y & Hy & Hin); apply H; exists y; split; try done.
  - by apply elem_of_list_to_set.
  - by apply elem_of_list_to_set in Hin.
Qed.

(** What [remove_param] does: nothing when no identifier matches, and
    else it takes out the first entry that matches. *)
Lemma remove_param_cases identifier params :
  ((ParameterService.remove_param identifier params).1 = false
   ∧ (ParameterService.remove_param identifier params).2 = params
   ∧ (PyStr.lower identifier ∉ (PyStr.lower <$> params.*2)))
  ∨ (∃ l1 entry l2,
       (ParameterService.remove_param identifier params).1 = true
       ∧ params = l1 ++ entry :: l2
       ∧ (ParameterService.remove_param identifier params).2 = l1 ++ l2
       ∧ PyStr.lower entry.2 = PyStr.lower identifier
       ∧ (PyStr.lower identifier ∉ (PyStr.lower <$> l1.*2))).
Proof.
  induction params as [|[d param_id] params IH].
  { left. repeat split. by intros ?%elem_of_nil. }
  cbn [ParameterService.remove_param].
  destruct (String.eqb_spec (PyStr.lower param_id) (PyStr.lower identifier))
    as [Heq|Hne].
  - right. exists [], (d, param_id), params. repeat split; try done.
    by intros ?%elem_of_nil.
  - destruct (ParameterService.remove_param identifier params) as [found rest].
    cbn [fst snd] in *.
    destruct IH as [(-> & -> & Hnot)|(l1 & entry & l2 & -> & -> & -> & He & Hnot)].
    + left. repeat split. rewrite !fmap_cons. cbn [snd].
      apply not_elem_of_cons. done.
    + right. exists ((d, param_id) :: l1), entry, l2. repeat split; try done.
      rewrite !fmap_cons. cbn [snd]. apply not_elem_of_cons. done.
Qed.

(** [add_param] and [remove_param] keep the identifiers distinct when
    case is ignored, and free of braces (so they meet the condition
    under which [replace_variables] leaves the placeholders of other
    names alone); the empty list, with which the service starts and to
    which [clear_custom_params] returns, is in that state. *)
Theorem custom_params_stay_ok display_name identifier params :
  params_ok params →
  params_ok (ParameterService.add_param display_name identifier params).2
  ∧ params_ok (ParameterService.remove_param identifier params).2
  ∧ params_ok ParameterService.clear_custom_params.
Proof.
  intros [Hdup Hfree]. split; [|split].
  - destruct (ParameterService.add_param display_name identifier params).1.1
      eqn:Hres.
    + apply add_param_accepted in Hres as [Hvalid ->].
      pose proof (identifier_accepted_brace_free _ _ Hvalid) as Hbf.
      apply identifier_accepted_iff in Hvalid as [Hnew _].
      apply lower_not_in_set in Hnew. split.
      * rewrite !fmap_app. apply NoDup_app. split; [done|]. split.
        -- intros x Hx [->|[]%elem_of_nil]%elem_of_cons. done.
        -- apply NoDup_singleton.
      * apply Forall_app. split; [done|]. by apply Forall_singleton.
    + apply add_param_rejected in Hres as ->. done.
  - destruct (remove_param_cases identifier params)
      as [(_ & -> & _)|(l1 & entry & l2 & _ & -> & -> & _)]; [done|].
    split.
    + rewrite !fmap_app, !fmap_cons in Hdup. rewrite !fmap_app.
      apply NoDup_app in Hdup as (H1 & H12 & H2).
      apply NoDup_cons in H2 as [_ H2]. apply NoDup_app.
      split; [done|]. split; [|done].
      intros x Hx Hx2. apply (H12 x Hx). by right.
    + apply Forall_app in Hfree as [H1 H2]. apply Forall_cons in H2 as [_ H2].
      apply Forall_app. done.
  - split; [apply NoDup_nil_2|done].
Qed.

Lemma custom_params_stay_ok_witness :
  params_ok (ParameterService.add_param "Order" "order_id" []).2.
Proof.
  apply (custom_params_stay_ok "Order" "order_id" []).
  split; [apply NoDup_nil_2|done].
Defined.

Lemma remove_param_app_miss identifier l1 l2 :
  (PyStr.lower identifier ∉ (PyStr.lower <$> l1.*2)) →
  ParameterService.remove_param identifier (l1 ++ l2)
  = ((ParameterService.remove_param identifier l2).1,
     l1 ++ (ParameterService.remove_param identifier l2).2).
Proof.
  induction l1 as [|[d param_id] l1 IH]; intros Hnot.
  { simpl. by destruct (ParameterService.remove_param identifier l2). }
  rewrite !fmap_cons in Hnot. apply not_elem_of_cons in Hnot as [Hne Hnot].
  cbn [app ParameterService.remove_param snd] in *.
  destruct (String.eqb_spec (PyStr.lower param_id) (PyStr.lower identifier));
    [congruence|].
  by rewrite IH.
Qed.

(** A parameter that was just added is the one that [remove_param]
    takes out: removing it gives the list back. *)
Theorem add_then_remove display_name identifier params :
  (ParameterService.add_param display_name identifier params).1.1 = true →
  ParameterService.remove_param identifier
    (ParameterService.add_param display_name identifier params).2
  = (true, params).
Proof.
  intros [Hvalid ->]%add_param_accepted.
  apply identifier_accepted_iff in Hvalid as [Hnew _].
  apply lower_not_in_set in Hnew.
  rewrite remove_param_app_miss by done.
  cbn [ParameterService.remove_param]. rewrite String.eqb_refl. cbn [fst snd].
  by rewrite app_nil_r.
Qed.

Lemma add_then_remove_witness :
  ParameterService.remove_param "ORDER_ID"
    (ParameterService.add_param "Order" "ORDER_ID" [("Firm", "company")]).2
  = (true, [("Firm", "company")]).
Proof. by apply add_then_remove. Defined.

(** [remove_param] fails exactly when no identifier matches, ignoring
    case, and then leaves the list as it is; on a list with distinct
    identifiers the parameter is gone after it, whatever the case in
    which it was asked for. *)
Theorem remove_param_gone identifier params :
  ((ParameterService.remove_param identifier params).1 = false
   ↔ (PyStr.lower identifier ∉ (PyStr.lower <$> params.*2)))
  ∧ ((ParameterService.remove_param identifier params).1 = false →
     (ParameterService.remove_param identifier params).2 = params)
  ∧ (NoDup (PyStr.lower <$> params.*2) →
     PyStr.lower identifier
       ∉ (PyStr.lower <$> (ParameterService.remove_param identifier params).2.*2)).
Proof.
  destruct (remove_param_cases identifier params)
    as [(Hf & Hsame & Hnot)|(l1 & entry & l2 & Ht & Hps & Hrest & He & Hnot)].
  - rewrite Hf, Hsame. done.
  - rewrite Ht, Hrest, Hps. split; [|split]; [split; [done|]|done|].
    + intros H. exfalso. apply H. rewrite !fmap_app, !fmap_cons, He.
      apply elem_of_app. right. left.
    + rewrite !fmap_app, !fmap_cons, He. intros Hdup.
      apply NoDup_app in Hdup as (_ & _ & H2). apply NoDup_cons in H2 as [H2 _].
      intros [?|?]%elem_of_app; done.
Qed.

Lemma remove_param_gone_witness :
  PyStr.lower "Company"
    ∉ (PyStr.lower <$>
         (ParameterService.remove_param "Company"
            [("Firm", "company"); ("Order", "order_id")]).2.*2).
Proof.
  apply (remove_param_gone "Company"
           [("Firm", "company"); ("Order", "order_id")]).
  by apply (bool_decide_unpack _).
Defined.

(** The required columns are looked for ignoring case, and nothing but
    [name] and [email] is ever reported missing. *)
Theorem required_params_ignore_case (headers : gset string) :
  ((ParameterService.validate_required_params headers).1 = true
   ↔ (∃ h, h ∈ headers ∧ PyStr.lower h = "name")
     ∧ (∃ h, h ∈ headers ∧ PyStr.lower h = "email"))
  ∧ (ParameterService.validate_required_params headers).2
    ⊆ {["name"; "email"]}.
Proof.
  unfold ParameterService.validate_required_params. cbn [fst snd].
  split; [|apply subseteq_difference_l; done].
  rewrite Nat.eqb_eq, size_empty_iff. split.
  - intros Hempty. split.
    + destruct (decide ("name" ∈ (set_map PyStr.lower headers : gset string)))
        as [Hin|Hout].
      * apply elem_of_map in Hin as (h & ? & ?). by exists h.
      * exfalso. apply (not_elem_of_empty (C:=gset string) "name"), Hempty.
        apply elem_of_difference. split; [|done].
        apply elem_of_union. left. by apply elem_of_singleton.
    + destruct (decide ("email" ∈ (set_map PyStr.lower headers : gset string)))
        as [Hin|Hout].
      * apply elem_of_map in Hin as (h & ? & ?). by exists h.
      * exfalso. apply (not_elem_of_empty (C:=gset string) "email"), Hempty.
        apply elem_of_difference. split; [|done].
        apply elem_of_union. right. by apply elem_of_singleton.
  - intros [(h1 & Hh1 & Hn) (h2 & Hh2 & He)] x.
    rewrite elem_of_difference, elem_of_union, !elem_of_singleton, elem_of_map.
    split; [|by intros ?%not_elem_of_empty].
    intros [[->| ->] Hnot]; exfalso; apply Hnot; eauto.
Qed.

(** ** Case: validation against substitution *)

Lemma lower_char_idemp c :
  PyStr.lower_char (PyStr.lower_char c) = PyStr.lower_char c.
Proof. destruct c as [[] [] [] [] [] [] [] []]; reflexivity. Qed.

Lemma lower_idemp s : PyStr.lower (PyStr.lower s) = PyStr.lower s.
Proof.
  induction s as [|c s IH]; [done|]. simpl. by rewrite lower_char_idemp, IH.
Qed.

Lemma lower_char_brace c :
  Ascii.eqb (PyStr.lower_char c) PyStr.lbrace = Ascii.eqb c PyStr.lbrace
  ∧ Ascii.eqb (PyStr.lower_char c) PyStr.rbrace = Ascii.eqb c PyStr.rbrace.
Proof. destruct c as [[] [] [] [] [] [] [] []]; split; reflexivity. Qed.

Lemma lower_brace_free s : brace_free s → brace_free (PyStr.lower s).
Proof.
  intros [H1 H2]. split.
  - induction s as [|c s IH]; [done|]. simpl in *.
    rewrite (proj1 (lower_char_brace c)).
    apply orb_false_elim in H1 as [-> H1]. apply orb_false_elim in H2 as [_ H2].
    by apply IH.
  - induction s as [|c s IH]; [done|]. simpl in *.
    rewrite (proj2 (lower_char_brace c)).
    apply orb_false_elim in H1 as [_ H1]. apply orb_false_elim in H2 as [-> H2].
    by apply IH.
Qed.

Lemma findall_placeholder key :
  key ≠ "" → has_char PyStr.rbrace key = false →
  findall (placeholder key) = [key].
Proof.
  intros Hne Hkey. unfold findall.
  rewrite <- (str_app_nil_r (placeholder key)).
  by rewrite findall_go_hit.
Qed.

Lemma validate_params_iff (T A : gset string) :
  (ParameterService.validate_template_params T A).1 = true
  ↔ ∀ p, p ∈ T → ∃ a, a ∈ A ∧ PyStr.lower a = PyStr.lower p.
Proof.
  unfold ParameterService.validate_template_params. cbn [fst].
  rewrite Nat.eqb_eq, size_empty_iff. split.
  - intros Hempty p Hp.
    destruct (decide (PyStr.lower p ∈ (set_map PyStr.lower A : gset string)))
      as [Hin|Hout].
    + apply elem_of_map in Hin as (a & Heq & Ha). by exists a.
    + exfalso. apply (not_elem_of_empty (C:=gset string) (PyStr.lower p)).
      apply Hempty. apply elem_of_difference. split; [|done].
      apply elem_of_map. by exists p.
  - intros Hall x. rewrite elem_of_difference, !elem_of_map.
    split; [|by intros ?%not_elem_of_empty].
    intros [(p & -> & Hp) Hnot]. exfalso. apply Hnot.
    destruct (Hall p Hp) as (a & Ha & Heq). by exists a.
Qed.

Lemma merge_params_elem custom p :
  p ∈ ParameterService.merge_params custom ↔ p ∈ "name" :: "email" :: custom.
Proof.
  unfold ParameterService.merge_params.
  rewrite elem_of_union, elem_of_union, !elem_of_singleton,
    elem_of_list_to_set, !elem_of_cons.
  tauto.
Qed.

(** The check that the recipients panel runs on an import.  The panel
    checks the set that [sync_custom_params] stored, the two default
    parameters and the custom ones, never the placeholders of the
    template.  That set is not empty, so the check is not skipped; it
    passes on no rows; on rows it reads the columns of the first one
    only, and passes exactly when every default and custom parameter is,
    case ignored, one of these columns.  What it reports are the
    lower-case forms of the parameters without such a column.  Before
    the first [sync_custom_params] the set is empty and the check is
    skipped. *)
Theorem recipients_panel_import_check custom
    (recipient : gmap string string) rest :
  let template_params := RecipientsPanel.sync_custom_params custom in
  template_params ≠ ∅
  ∧ RecipientsPanel.import_check template_params (recipient :: rest)
    = ParameterService.validate_template_params
        (ParameterService.merge_params custom) (dom recipient)
  ∧ RecipientsPanel.import_check template_params [] = (true, ∅)
  ∧ RecipientsPanel.import_check ∅ (recipient :: rest) = (true, ∅)
  ∧ ((RecipientsPanel.import_check template_params (recipient :: rest)).1
       = true
     ↔ ∀ p, p ∈ "name" :: "email" :: custom →
         ∃ column, column ∈ dom recipient
                   ∧ PyStr.lower column = PyStr.lower p)
  ∧ (∀ u, u ∈ (RecipientsPanel.import_check template_params
                 (recipient :: rest)).2
          ↔ (∃ p, p ∈ "name" :: "email" :: custom ∧ u = PyStr.lower p)
            ∧ ∀ column, column ∈ dom recipient → PyStr.lower column ≠ u).
Proof.
  cbn zeta. unfold RecipientsPanel.sync_custom_params.
  assert (ParameterService.merge_params custom ≠ ∅) as Hne.
  { intros Hempty.
    apply (not_elem_of_empty (C:=gset string) "name").
    rewrite <- Hempty. apply merge_params_elem. by left. }
  unfold RecipientsPanel.import_check.
  rewrite (bool_decide_eq_false_2 _ Hne), bool_decide_eq_true_2 by done.
  cbn [RecipientsService.validate_template_params].
  split; [done|]. split; [done|]. split; [done|]. split; [done|]. split.
  - rewrite validate_params_iff. split.
    + intros H p Hp. apply H. by apply merge_params_elem.
    + intros H p Hp. apply H. by apply merge_params_elem.
  - intros u. unfold ParameterService.validate_template_params. cbn [snd].
    rewrite elem_of_difference, !elem_of_map. split.
    + intros [(p & -> & Hp) Hnot]. split.
      * exists p. split; [|done]. by apply merge_params_elem.
      * intros column Hcolumn Heq. apply Hnot. by exists column.
    + intros [(p & Hp & ->) Hnot]. split.
      * exists p. split; [done|]. by apply merge_params_elem.
      * intros (column & Heq & Hcolumn). by apply (Hnot column).
Qed.

Lemma recipients_panel_import_check_witness :
  (RecipientsPanel.import_check (RecipientsPanel.sync_custom_params ["City"])
     [{["Name" := "Ann"; "EMAIL" := "ann@example.org"; "city" := "Rome";
        "status" := ""]};
      {["name" := "Bob"]}]).1 = true.
Proof.
  apply (proj2 (proj2 (proj2 (proj2
    (recipients_panel_import_check ["City"]
       {["Name" := "Ann"; "EMAIL" := "ann@example.org"; "city" := "Rome";
         "status" := ""]} [{["name" := "Bob"]}]))))).
  intros p Hp. rewrite !elem_of_cons in Hp.
  destruct Hp as [-> | [-> | [-> | []%elem_of_nil]]].
  - exists "Name". by vm_compute.
  - exists "EMAIL". by vm_compute.
  - exists "city". by vm_compute.
Defined.

(** It accepts more: a placeholder that is written in another case than
    the column passes the check of the recipients panel, and
    [replace_variables], which compares exactly, leaves it in the text. *)
Theorem case_mismatch_not_substituted key value rest :
  key ≠ "" → brace_free key → PyStr.lower key ≠ key →
  (RecipientsService.validate_template_params
     (get_template_params "" (placeholder key))
     ({[PyStr.lower key := value]} :: rest)).1 = true
  ∧ (validate_template "" (placeholder key) {[PyStr.lower key]}).1 = false
  ∧ replace_variables (placeholder key) [(PyStr.lower key, value)]
    = placeholder key.
Proof.
  intros Hne [Hl Hr] Hcase.
  assert (get_template_params "" (placeholder key) = {[key]}) as Hparams.
  { unfold get_template_params, validate_template_params.
    rewrite findall_placeholder by done.
    apply set_eq. intros x.
    rewrite elem_of_union, !elem_of_list_to_set, elem_of_singleton.
    rewrite list_elem_of_singleton. split; [|by right].
    intros [[]%elem_of_nil|?]; done. }
  split; [|split].
  - cbn [RecipientsService.validate_template_params]. rewrite Hparams.
    unfold ParameterService.validate_template_params. cbn [fst].
    rewrite Nat.eqb_eq, size_empty_iff, dom_singleton_L. intros x.
    rewrite elem_of_difference, !elem_of_map.
    split; [|by intros ?%not_elem_of_empty].
    intros [(y & -> & ->%elem_of_singleton) Hnot]. exfalso. apply Hnot.
    exists (PyStr.lower key). rewrite lower_idemp.
    split; [done|]. by apply elem_of_singleton.
  - unfold validate_template. rewrite Hparams. cbn [fst].
    apply Nat.eqb_neq. rewrite size_empty_iff. intros Hempty.
    apply (not_elem_of_empty (C:=gset string) key), Hempty.
    apply elem_of_difference. rewrite !elem_of_singleton. done.
  - cbn [replace_variables].
    pose proof (replace_placeholder_around (PyStr.lower key) value key "" "")
      as Haround.
    rewrite !str_app_nil_l, str_app_nil_r in Haround.
    rewrite Haround; [|by apply lower_brace_free|done..].
    rewrite !replace_nonempty by apply placeholder_nonempty.
    by rewrite !replace_go_nil, str_app_nil_r.
Qed.

Lemma case_mismatch_not_substituted_witness :
  replace_variables "{Name}" [("name", "Ann")] = "{Name}".
Proof. by apply (case_mismatch_not_substituted "Name" "Ann" []). Defined.

(** ** Synchronising the rows with the parameters *)

Lemma sync_fold_lookup (row : gmap string string) (V : gset string) k :
  set_fold (λ col (new_row : gmap string string),
              <[col := default "" (row !! col)]> new_row) ∅ V !! k
  = if decide (k ∈ V) then Some (default "" (row !! k)) else None.
Proof.
  set (f := λ col (new_row : gmap string string),
              <[col := default "" (row !! col)]> new_row).
  set (P := λ (m : gmap string string) (X : gset string),
              ∀ k, m !! k = if decide (k ∈ X)
                            then Some (default "" (row !! k)) else None).
  assert (∀ X, P (set_fold f ∅ X) X) as Hfold; [|by apply Hfold].
  apply set_fold_ind_L; unfold P, f.
  - intros k'. rewrite lookup_empty. by rewrite decide_False by set_solver.
  - intros x X m Hx IH k'. destruct (decide (x = k')) as [->|Hne].
    + rewrite lookup_insert_eq. by rewrite decide_True by set_solver.
    + rewrite lookup_insert_ne, IH by done.
      destruct (decide (k' ∈ X)).
      * by rewrite decide_True by set_solver.
      * by rewrite decide_False by set_solver.
Qed.

Lemma sync_row_lookup (V : gset string) (row : gmap string string) k :
  ParameterService.sync_row V row !! k
  = if decide (k ∈ V ∨ (k = "status" ∧ is_Some (row !! "status")))
    then Some (default "" (row !! k)) else None.
Proof.
  unfold ParameterService.sync_row.
  destruct (row !! "status") as [status|] eqn:Hstatus.
  - destruct (decide (k = "status")) as [->|Hne].
    + rewrite lookup_insert_eq, Hstatus. by rewrite decide_True by eauto.
    + rewrite lookup_insert_ne, sync_fold_lookup by done.
      destruct (decide (k ∈ V)).
      * by rewrite decide_True by eauto.
      * by rewrite decide_False by naive_solver.
  - rewrite sync_fold_lookup. destruct (decide (k ∈ V)).
    + by rewrite decide_True by eauto.
    + rewrite decide_False; [done|]. intros [?|[_ []%is_Some_None]]. done.
Qed.

Lemma sync_row_idemp (V : gset string) (row : gmap string string) :
  ParameterService.sync_row V (ParameterService.sync_row V row)
  = ParameterService.sync_row V row.
Proof.
  apply map_eq. intros k. rewrite !sync_row_lookup.
  destruct (decide (k ∈ V ∨ (k = "status" ∧ is_Some (row !! "status"))))
    as [Hk|Hk].
  - rewrite decide_True; [done|]. destruct Hk as [?|[-> Hs]]; [by left|].
    right. split; [done|]. rewrite decide_True by eauto. done.
  - rewrite decide_False; [done|]. intros [?|[-> Hs]]; [by apply Hk; left|].
    destruct (decide ("status" ∈ V ∨ "status" = "status" ∧ is_Some (row !! "status")))
      as [Hs'|Hs']; [done|]. by apply is_Some_None in Hs.
Qed.

(** Synchronising keeps the number of rows; a new row has the columns
    [email] and [name], the parameters, and the status when the old row
    has one, each with the old value or the empty string, and nothing
    else; synchronising twice is synchronising once. *)
Theorem sync_params_with_data_rows params (data : list (gmap string string)) :
  let synced := ParameterService.sync_params_with_data params data in
  length synced = length data
  ∧ (∀ i row, data !! i = Some row →
       ∃ new_row, synced !! i = Some new_row ∧
         ∀ k, new_row !! k
              = if decide (k ∈ ParameterService.get_display_columns params
                           ∨ (k = "status" ∧ is_Some (row !! "status")))
                then Some (default "" (row !! k)) else None)
  ∧ ParameterService.sync_params_with_data params synced = synced.
Proof.
  cbn zeta. unfold ParameterService.sync_params_with_data.
  split; [apply length_fmap|]. split.
  - intros i row Hrow. eexists. split.
    + rewrite list_lookup_fmap, Hrow. reflexivity.
    + intros k. rewrite sync_row_lookup.
      unfold ParameterService.get_display_columns.
      assert (k ∈ ({["email"; "name"]} ∪ list_to_set params : gset string)
              ↔ k ∈ ["email"; "name"] ++ params) as Hiff.
      { rewrite elem_of_union, elem_of_list_to_set, elem_of_app.
        rewrite elem_of_union, !elem_of_singleton, !elem_of_cons, elem_of_nil.
        tauto. }
      destruct (decide (k ∈ _ ∨ _)) as [H|H];
        [rewrite decide_True|rewrite decide_False]; tauto.
  - rewrite <- list_fmap_compose. apply list_fmap_ext. intros _ row _.
    apply sync_row_idemp.
Qed.

Lemma sync_params_with_data_rows_witness :
  ∃ new_row,
    ParameterService.sync_params_with_data ["code"]
      [{["email" := "a@x.org"; "Name" := "Ann"]}] !! 0 = Some new_row
    ∧ ∀ k, new_row !! k
           = if decide (k ∈ ParameterService.get_display_columns ["code"]
                        ∨ (k = "status"
                           ∧ is_Some (({["email" := "a@x.org"; "Name" := "Ann"]}
                                       : gmap string string) !! "status")))
             then Some (default ""
                          (({["email" := "a@x.org"; "Name" := "Ann"]}
                            : gmap string string) !! k))
             else None.
Proof.
  apply (sync_params_with_data_rows ["code"]
           [{["email" := "a@x.org"; "Name" := "Ann"]}]).
  reflexivity.
Defined.

(** * The recipients service *)

Lemma update_status_on_emails email status data :
  Forall (λ row : gmap string string, is_Some (row !! "email")) data →
  is_Some (RecipientsService.update_status email status data).
Proof.
  induction 1 as [|row data [e He] _ IH]; [by eexists|].
  cbn [RecipientsService.update_status]. rewrite He.
  destruct (String.eqb e email); [by eexists|].
  destruct IH as [[found rest] ->]. by eexists.
Qed.

(** [update_status] reads the key [email] of the rows: it fails on a
    row without it.  On rows that all have the key, as the rows that
    [sync_params_with_data] makes do, it always returns. *)
Theorem update_status_after_sync email status params data :
  is_Some (RecipientsService.update_status email status
             (ParameterService.sync_params_with_data params data))
  ∧ RecipientsService.update_status email status [∅] = None.
Proof.
  split; [|done]. apply update_status_on_emails.
  unfold ParameterService.sync_params_with_data.
  apply Forall_fmap, Forall_true. intros row. cbn [compose].
  rewrite sync_row_lookup, decide_True; [by eexists|].
  left. set_solver.
Qed.

Lemma update_status_cases email status data res :
  RecipientsService.update_status email status data = Some res →
  (res.1 = false ∧ res.2 = data
   ∧ Forall (λ row : gmap string string, row !! "email" ≠ Some email) data)
  ∨ (∃ l1 row l2,
       res.1 = true ∧ data = l1 ++ row :: l2
       ∧ res.2 = l1 ++ <["status" := status]> row :: l2
       ∧ row !! "email" = Some email
       ∧ Forall (λ row' : gmap string string,
                   is_Some (row' !! "email") ∧ row' !! "email" ≠ Some email) l1).
Proof.
  revert res. induction data as [|row data IH]; intros res Hres.
  { injection Hres as <-. left. done. }
  cbn [RecipientsService.update_status] in Hres.
  destruct (row !! "email") as [e|] eqn:He; [|done].
  destruct (String.eqb_spec e email) as [->|Hne].
  - injection Hres as <-. right. exists [], row, data. done.
  - destruct (RecipientsService.update_status email status data)
      as [[found rest]|]; [|done].
    injection Hres as <-. cbn [fst snd].
    assert (row !! "email" ≠ Some email) as Hrow by congruence.
    destruct (IH _ eq_refl) as [(Hf & Hr & Hall)|(l1 & r & l2 & Hf & -> & Hr & Hm & Hall)];
      cbn [fst snd] in *; subst.
    + left. split; [done|]. split; [done|]. by constructor.
    + right. exists (row :: l1), r, l2. repeat split; try done.
      constructor; [|done]. split; [by eexists|done].
Qed.

(** When [update_status] finds no row with the address it changes
    nothing; when it finds one it sets the status of the first such row
    and of no other, and every row keeps its place, its address and its
    other fields. *)
Theorem update_status_first_match email status data res :
  RecipientsService.update_status email status data = Some res →
  length res.2 = length data
  ∧ (res.1 = false ↔
     Forall (λ row : gmap string string, row !! "email" ≠ Some email) data)
  ∧ (res.1 = false → res.2 = data)
  ∧ (res.1 = true →
     ∃ i row, data !! i = Some row ∧ row !! "email" = Some email
       ∧ res.2 = <[i := <["status" := status]> row]> data
       ∧ ∀ j row', j < i → data !! j = Some row' →
                   row' !! "email" ≠ Some email).
Proof.
  intros [(Hf & Hr & Hall)|(l1 & row & l2 & Ht & -> & Hr & Hm & Hall)]%update_status_cases.
  - rewrite Hf, Hr. split; [done|]. split; [done|]. split; [done|]. done.
  - rewrite Ht, Hr. split; [by rewrite !length_app|].
    split; [|split; [done|]].
    + split; [done|]. intros Hno. apply Forall_app in Hno as [_ Hno].
      apply Forall_cons in Hno as [Hno _]. done.
    + intros _. exists (length l1), row. split; [|split; [done|split]].
      * by rewrite list_lookup_middle.
      * by rewrite insert_app_r_alt, Nat.sub_diag by lia.
      * intros j row' Hj Hrow'. rewrite lookup_app_l in Hrow' by done.
        by apply (Forall_lookup_1 _ _ _ _ Hall) in Hrow' as [_ ?].
Qed.

Lemma update_status_first_match_witness :
  (true, [<["status" := "sent"]> ({["email" := "a@x.org"]} : gmap string string);
          {["email" := "a@x.org"]}]).1 = false
  ↔ Forall (λ row : gmap string string, row !! "email" ≠ Some "a@x.org")
      [{["email" := "a@x.org"]}; {["email" := "a@x.org"]}].
Proof.
  apply (update_status_first_match "a@x.org" "sent"
           [{["email" := "a@x.org"]}; {["email" := "a@x.org"]}]).
  reflexivity.
Defined.

(** A later status of a recipient replaces the earlier one: two updates
    for one address leave what the second alone leaves. *)
Theorem update_status_last_wins email status1 status2 data res :
  RecipientsService.update_status email status1 data = Some res →
  RecipientsService.update_status email status2 res.2
  = RecipientsService.update_status email status2 data.
Proof.
  revert res. induction data as [|row data IH]; intros res Hres.
  { by injection Hres as <-. }
  cbn [RecipientsService.update_status] in Hres |- *.
  destruct (row !! "email") as [e|] eqn:He; [|done].
  destruct (String.eqb e email) eqn:Heq.
  - injection Hres as <-. cbn [snd RecipientsService.update_status].
    rewrite lookup_insert_ne, He, Heq by done. by rewrite insert_insert_eq.
  - destruct (RecipientsService.update_status email status1 data)
      as [[found rest]|] eqn:Hrest; [|done].
    injection Hres as <-. cbn [snd RecipientsService.update_status].
    specialize (IH _ eq_refl). cbn [snd] in IH.
    by rewrite He, Heq, IH.
Qed.

Lemma update_status_last_wins_witness :
  RecipientsService.update_status "a@x.org" "sent"
    [<["status" := "sending"]> {["email" := "a@x.org"]}]
  = RecipientsService.update_status "a@x.org" "sent" [{["email" := "a@x.org"]}].
Proof.
  apply (update_status_last_wins "a@x.org" "sending" "sent"
           [{["email" := "a@x.org"]}]
           (true, [<["status" := "sending"]> {["email" := "a@x.org"]}])).
  reflexivity.
Defined.

(** [update_recipient] replaces the row at an index from [0] to
    [len - 1] and leaves the other rows; for every other index, the
    negative ones among them, it changes nothing. *)
Theorem update_recipient_in_range index row
    (data : list (gmap string string)) :
  length (RecipientsService.update_recipient index row data) = length data
  ∧ ((0 ≤ index < Z.of_nat (length data))%Z →
     RecipientsService.get_recipient index
       (RecipientsService.update_recipient index row data) = Some row)
  ∧ (∀ j, (0 ≤ j)%Z → j ≠ index →
       RecipientsService.get_recipient j
         (RecipientsService.update_recipient index row data)
       = RecipientsService.get_recipient j data)
  ∧ (¬ (0 ≤ index < Z.of_nat (length data))%Z →
     RecipientsService.update_recipient index row data = data).
Proof.
  unfold RecipientsService.update_recipient, RecipientsService.get_recipient.
  destruct (Z.leb_spec 0 index) as [H0|H0];
    destruct (Z.ltb_spec index (Z.of_nat (length data))) as [H1|H1];
    cbn [andb].
  - split; [apply length_insert|]. split; [|split; [|lia]].
    + intros _. apply list_lookup_insert_eq. lia.
    + intros j Hj Hne. destruct (Z.leb_spec 0 j); [|lia].
      apply list_lookup_insert_ne. lia.
  - split; [done|]. split; [lia|]. done.
  - split; [done|]. split; [lia|]. done.
  - split; [done|]. split; [lia|]. done.
Qed.

Lemma update_recipient_in_range_witness :
  RecipientsService.get_recipient 1
    (RecipientsService.update_recipient 1 {["email" := "c@x.org"]}
       [{["email" := "a@x.org"]}; {["email" := "b@x.org"]}])
  = Some {["email" := "c@x.org"]}.
Proof.
  apply (update_recipient_in_range 1 {["email" := "c@x.org"]}
           [{["email" := "a@x.org"]}; {["email" := "b@x.org"]}]).
  simpl. lia.
Defined.

(** [get_recipient] takes the indices from [-len] to [len - 1], the
    negative ones counting from the end, and fails on every other one;
    the index [-1] gives the last row, which [update_recipient] with
    the same index does not touch. *)
Theorem get_recipient_indices index (data : list (gmap string string)) :
  (RecipientsService.get_recipient index data = None
   ↔ (index < - Z.of_nat (length data) ∨ Z.of_nat (length data) ≤ index)%Z)
  ∧ RecipientsService.get_recipient (-1) data = last data
  ∧ ∀ row, RecipientsService.update_recipient (-1) row data = data.
Proof.
  unfold RecipientsService.get_recipient. split; [|split].
  - destruct (Z.leb_spec 0 index) as [H0|H0].
    + rewrite lookup_ge_None. lia.
    + destruct (Z.leb_spec (- Z.of_nat (length data)) index) as [H1|H1].
      * rewrite lookup_ge_None. lia.
      * split; [lia|done].
  - cbn [Z.leb Z.compare]. rewrite last_lookup.
    destruct data as [|r data]; [done|].
    destruct (Z.leb_spec (- Z.of_nat (length (r :: data))) (-1)) as [_|H];
      [|simpl in H; lia].
    f_equal. simpl. lia.
  - intros row. unfold RecipientsService.update_recipient. done.
Qed.
